(** * Sum-stack: the game engine of the component [App], embedded and verified

    The engine is the part of the React component [App] (part_000) that
    owns the grid, the selection, the target, the score, the combo and the
    timer.  Every [useState] cell that the engine reads or writes is a
    field of [GameState]; every handler, updater and effect is a function
    on that record.  The numbers of the engine are integers far below
    2^53 and are modelled in [Z]; the calls of [Math.random] are made
    explicit through [Rand]. *)

From Stdlib Require Import String Ascii ZArith Bool Lia List Permutation Sorted.
Import ListNotations.
Open Scope Z_scope.

(** ** Constants ([types.ts]) *)

Definition GRID_ROWS : Z := 10.
Definition GRID_COLS : Z := 7.
Definition INITIAL_ROWS : Z := 4.
Definition MAX_VALUE : Z := 9.
Definition TIME_LIMIT : Z := 10.

(** ** Data model ([types.ts]) *)

Inductive GameMode : Type := classic | time.

(** [isRemoving?] of the interface is never written by the engine and is
    left out. *)
Record Block : Type := mkBlock {
  id : string;
  value : Z;
  row : Z;
  col : Z
}.

Definition Grid : Type := list (list Block).

(** The [useState] cells of [App] that the engine uses. *)
Record GameState : Type := mkState {
  mode : option GameMode;
  grid : Grid;
  target : Z;
  selectedIds : list string;
  score : Z;
  gameOver : bool;
  timeLeft : Z;
  isPaused : bool;
  combo : Z
}.

(** [{ ...block, row: r }] *)
Definition withRow (b : Block) (r : Z) : Block :=
  mkBlock (id b) (value b) r (col b).

(** ** The random source

    A call of [Math.random()] yields a number [u] in [0, 1).  The program
    observes [u] in two ways only: as the text
    [u.toString(36).substr(2, 9)] and as the integer [Math.floor(u * k)],
    which lies in [0, k).  A [Draw] carries both observations; the integer
    one is reduced modulo [k] at its use, so that every value of [0, k) and
    no other can come out.  [Rand] is the sequence of draws still to
    come. *)

Record Draw : Type := mkDraw { text36 : string; scaled : nat }.

Record Rand : Type := mkRand { source : nat -> Draw; cursor : nat }.

Definition random (r : Rand) : Draw * Rand :=
  (source r (cursor r), mkRand (source r) (S (cursor r))).

(** [Math.floor(Math.random() * k)] *)
Definition randomBelow (k : nat) (r : Rand) : nat * Rand :=
  let (d, r') := random r in (Nat.modulo (scaled d) k, r').

Definition generateId (r : Rand) : string * Rand :=
  let (d, r') := random r in (text36 d, r').

Definition createBlock (rw cl : Z) (r : Rand) : Block * Rand :=
  let (i, r1) := generateId r in
  let (v, r2) := randomBelow (Z.to_nat MAX_VALUE) r1 in
  (mkBlock i (Z.of_nat v + 1) rw cl, r2).

(** [for (let c = from; c < from + n; c++) row.push(createBlock(rw, c))] *)
Fixpoint createRow (rw : Z) (n : nat) (from : Z) (r : Rand) : list Block * Rand :=
  match n with
  | O => ([], r)
  | S n' =>
      let (b, r1) := createBlock rw from r in
      let (bs, r2) := createRow rw n' (from + 1) r1 in
      (b :: bs, r2)
  end.

(** ** Array helpers *)

(** [ids.includes(x)] *)
Definition includes (ids : list string) (x : string) : bool :=
  existsb (String.eqb x) ids.

(** [blocks.reduce((acc, b) => acc + b.value, 0)] *)
Definition sumValues (blocks : list Block) : Z :=
  fold_left (fun acc b => acc + value b) blocks 0.

(** [grid.flat()] *)
Definition flat (g : Grid) : list Block := concat g.

(** [grid.flat().filter(b => selectedIds.includes(b.id))] *)
Definition selectedBlocks (g : Grid) (sel : list string) : list Block :=
  filter (fun b => includes sel (id b)) (flat g).

(** Removal of the [k]-th element. *)
Fixpoint extract {A : Type} (k : nat) (l : list A) {struct l}
  : option (A * list A) :=
  match l with
  | [] => None
  | x :: t =>
      match k with
      | O => Some (x, t)
      | S k' =>
          match extract k' t with
          | Some (y, t') => Some (y, x :: t')
          | None => None
          end
      end
  end.

(** [[...flat].sort(() => 0.5 - Math.random())].  The comparator ignores its
    arguments, so which rearrangement comes out depends on the engine's
    sorting algorithm and on the draws; the program only uses that it is a
    rearrangement of the array.  The model builds the rearrangement
    position by position from the draws: every rearrangement can come out,
    and nothing else. *)
Fixpoint shuffleN (n : nat) (l : list Block) (r : Rand) : list Block * Rand :=
  match n with
  | O => (l, r)
  | S n' =>
      let (k, r1) := randomBelow (length l) r in
      match extract k l with
      | Some (x, rest) =>
          let (tl, r2) := shuffleN n' rest r1 in (x :: tl, r2)
      | None => (l, r1)
      end
  end.

Definition shuffle (l : list Block) (r : Rand) : list Block * Rand :=
  shuffleN (length l) l r.

(** ** generateTarget (part_000, 282-291) *)

Definition generateTarget (currentGrid : Grid) (r : Rand) : Z * Rand :=
  let blocks := flat currentGrid in
  if (length blocks =? 0)%nat then (10, r)
  else
    let (k, r1) := randomBelow 3 r in
    let count := (k + 2)%nat in
    let (shuffled, r2) := shuffle blocks r1 in
    (sumValues (firstn count shuffled), r2).

(** ** addNewRow (part_000, 293-315)

    The updater passed to [setGrid], together with the [setGameOver(true)]
    it performs. *)

(** [row => row.length > 0 && row[0].row === 0] *)
Definition topRow (rw : list Block) : bool :=
  match rw with
  | [] => false
  | b :: _ => row b =? 0
  end.

Definition shiftUp (g : Grid) : Grid :=
  map (map (fun block => withRow block (row block - 1))) g.

Definition addNewRow (r : Rand) (st : GameState) : GameState * Rand :=
  let prev := grid st in
  let isFull := existsb topRow prev in
  if isFull then
    (mkState (mode st) prev (target st) (selectedIds st) (score st) true
             (timeLeft st) (isPaused st) (combo st), r)
  else
    let shifted := shiftUp prev in
    let (newRow, r') := createRow (GRID_ROWS - 1) (Z.to_nat GRID_COLS) 0 r in
    (mkState (mode st) (shifted ++ [newRow]) (target st) (selectedIds st)
             (score st) (gameOver st) (timeLeft st) (isPaused st) (combo st), r').

(** ** startGame (part_000, 317-337) *)

Fixpoint createRows (n : nat) (from : Z) (r : Rand) : Grid * Rand :=
  match n with
  | O => ([], r)
  | S n' =>
      let (rw, r1) := createRow from (Z.to_nat GRID_COLS) 0 r in
      let (rest, r2) := createRows n' (from + 1) r1 in
      (rw :: rest, r2)
  end.

Definition startGame (selectedMode : GameMode) (r : Rand) (st : GameState)
  : GameState * Rand :=
  let (initialGrid, r1) :=
    createRows (Z.to_nat INITIAL_ROWS) (GRID_ROWS - INITIAL_ROWS) r in
  let (t, r2) := generateTarget initialGrid r1 in
  (mkState (Some selectedMode) initialGrid t [] 0 false TIME_LIMIT false 1, r2).

(** ** handleBlockClick (part_000, 339-348) *)

Definition toggle (prev : list string) (x : string) : list string :=
  if includes prev x then filter (fun i => negb (String.eqb i x)) prev
  else prev ++ [x].

Definition handleBlockClick (block : Block) (st : GameState) : GameState :=
  if gameOver st || isPaused st then st
  else mkState (mode st) (grid st) (target st)
               (toggle (selectedIds st) (id block))
               (score st) (gameOver st) (timeLeft st) (isPaused st) (combo st).

(** ** Clearing and gravity (part_000, 419-438)

    The updater of the success branch.  [newGrid[newRow]] is [undefined]
    for a negative [newRow], and [push] on it throws: the updater is
    partial. *)

(** [.sort((a, b) => b.row - a.row)]: stable, bottom-most first. *)
Fixpoint insertDesc (b : Block) (l : list Block) : list Block :=
  match l with
  | [] => [b]
  | x :: t => if row b <? row x then x :: insertDesc b t else b :: x :: t
  end.

Fixpoint sortDesc (l : list Block) : list Block :=
  match l with
  | [] => []
  | b :: t => insertDesc b (sortDesc t)
  end.

(** [newGrid[i].push(b)] for an index [i] of the array. *)
Fixpoint pushAt (i : nat) (b : Block) (g : Grid) {struct g} : option Grid :=
  match g with
  | [] => None
  | rw :: t =>
      match i with
      | O => Some ((rw ++ [b]) :: t)
      | S i' =>
          match pushAt i' b t with
          | Some t' => Some (rw :: t')
          | None => None
          end
      end
  end.

Definition pushRow (newRow : Z) (b : Block) (g : Grid) : option Grid :=
  if newRow <? 0 then None else pushAt (Z.to_nat newRow) b g.

(** [colBlocks.forEach((block, index) => ...)], from [index] on. *)
Fixpoint placeColumn (colBlocks : list Block) (index : Z) (newGrid : Grid)
  : option Grid :=
  match colBlocks with
  | [] => Some newGrid
  | block :: rest =>
      let newRow := GRID_ROWS - 1 - index in
      match pushRow newRow (withRow block newRow) newGrid with
      | Some g1 => placeColumn rest (index + 1) g1
      | None => None
      end
  end.

Definition inColumn (c : Z) (b : Block) : bool := col b =? c.

(** [remainingBlocks.filter(b => b.col === col).sort(...)] *)
Definition colBlocks (remainingBlocks : list Block) (c : Z) : list Block :=
  sortDesc (filter (inColumn c) remainingBlocks).

(** [for (let col = 0; col < GRID_COLS; col++)] over the listed columns. *)
Fixpoint gravityLoop (cols : list Z) (remainingBlocks : list Block)
  (newGrid : Grid) : option Grid :=
  match cols with
  | [] => Some newGrid
  | c :: cs =>
      match placeColumn (colBlocks remainingBlocks c) 0 newGrid with
      | Some g1 => gravityLoop cs remainingBlocks g1
      | None => None
      end
  end.

Definition columns : list Z := map Z.of_nat (seq 0 (Z.to_nat GRID_COLS)).

Definition unselected (sel : list string) (b : Block) : bool :=
  negb (includes sel (id b)).

Definition nonEmptyRow (rw : list Block) : bool := (0 <? length rw)%nat.

Definition clearAndCompact (sel : list string) (prev : Grid) : option Grid :=
  let remainingBlocks := filter (unselected sel) (flat prev) in
  let newGrid := repeat [] (Z.to_nat GRID_ROWS) in
  match gravityLoop columns remainingBlocks newGrid with
  | Some g => Some (filter nonEmptyRow g)
  | None => None
  end.

(** ** The check-sum effect (part_000, 351-461)

    The setters called by one run of the effect are applied as one batch:
    the clearing updater first, then, in classic mode, the updater of
    [addNewRow] on the cleared grid.  The particles and the score popup are
    presentation and are left out, with the random numbers they draw; the
    new target is set by a timeout of its own, see [newTarget].  [None] is
    the uncaught exception of the clearing updater. *)

Definition checkSum (r : Rand) (st : GameState) : option (GameState * Rand) :=
  let selected := selectedBlocks (grid st) (selectedIds st) in
  let currentSum := sumValues selected in
  if (currentSum =? target st) && negb (target st =? 0) then
    let points := target st * Z.of_nat (length selected) * combo st in
    match clearAndCompact (selectedIds st) (grid st) with
    | None => None
    | Some g =>
        match mode st with
        | Some classic =>
            Some (addNewRow r
                    (mkState (mode st) g (target st) [] (score st + points)
                             (gameOver st) (timeLeft st) (isPaused st)
                             (combo st)))
        | _ =>
            Some (mkState (mode st) g (target st) [] (score st + points)
                          (gameOver st) TIME_LIMIT (isPaused st)
                          (Z.min (combo st + 1) 5), r)
        end
    end
  else if currentSum >? target st then
    Some (mkState (mode st) (grid st) (target st) [] (score st) (gameOver st)
                  (timeLeft st) (isPaused st) 1, r)
  else Some (st, r).

(** The timeout of the success branch (part_000, 443-448). *)
Definition newTarget (r : Rand) (st : GameState) : GameState * Rand :=
  let (t, r') := generateTarget (grid st) r in
  (mkState (mode st) (grid st) t (selectedIds st) (score st) (gameOver st)
           (timeLeft st) (isPaused st) (combo st), r').

(** ** The timer (part_000, 464-480)

    The callback of the interval.  The interval exists only while the game
    runs in time mode; [transition] carries that guard. *)

Definition tick (r : Rand) (st : GameState) : GameState * Rand :=
  if timeLeft st <=? 1 then
    addNewRow r
      (mkState (mode st) (grid st) (target st) (selectedIds st) (score st)
               (gameOver st) TIME_LIMIT (isPaused st) 1)
  else
    (mkState (mode st) (grid st) (target st) (selectedIds st) (score st)
             (gameOver st) (timeLeft st - 1) (isPaused st) (combo st), r).

Definition running (st : GameState) : bool :=
  match mode st with
  | Some time => negb (gameOver st) && negb (isPaused st)
  | _ => false
  end.

(** ** The component as a transition system *)

Inductive Event : Type :=
| Start (m : GameMode)      (* startGame(m) *)
| Click (b : Block)         (* handleBlockClick(b) *)
| Evaluate                  (* a run of the check-sum effect *)
| Tick                      (* the interval fires *)
| NewTarget                 (* the timeout of a success fires *)
| TogglePause               (* setIsPaused(!isPaused) *)
| Resume                    (* setIsPaused(false) *)
| Menu.                     (* setMode(null) *)

(** The state of [App] when it is mounted. *)
Definition initialState : GameState :=
  mkState None [] 0 [] 0 false TIME_LIMIT false 1.

(** One event, with the random source as it stands when the event is
    handled.  [None]: the event cannot occur in this state, or its handler
    throws. *)
Definition transition (r : Rand) (e : Event) (st : GameState) : option GameState :=
  match e with
  | Start m => Some (fst (startGame m r st))
  | Click b => Some (handleBlockClick b st)
  | Evaluate => option_map fst (checkSum r st)
  | Tick => if running st then Some (fst (tick r st)) else None
  | NewTarget => Some (fst (newTarget r st))
  | TogglePause =>
      Some (mkState (mode st) (grid st) (target st) (selectedIds st) (score st)
                    (gameOver st) (timeLeft st) (negb (isPaused st)) (combo st))
  | Resume =>
      Some (mkState (mode st) (grid st) (target st) (selectedIds st) (score st)
                    (gameOver st) (timeLeft st) false (combo st))
  | Menu =>
      Some (mkState None (grid st) (target st) (selectedIds st) (score st)
                    (gameOver st) (timeLeft st) (isPaused st) (combo st))
  end.

Fixpoint run (trace : list (Rand * Event)) (st : GameState) : option GameState :=
  match trace with
  | [] => Some st
  | (r, e) :: rest =>
      match transition r e st with
      | Some st' => run rest st'
      | None => None
      end
  end.

Definition reachable (st : GameState) : Prop :=
  exists trace, run trace initialState = Some st.

(** ** Well-formed grids

    The grid of the data model: blocks sit on the lattice of [GRID_ROWS] by
    [GRID_COLS] cells, at most one per cell ([lattice_ok]).  In the
    representation of [App], every inner array holds blocks of one row
    ([rows_uniform]); block values lie in [1, MAX_VALUE] ([values_ok]).
    The checks are boolean so that they can be evaluated on a grid. *)

Definition cell (b : Block) : Z * Z := (row b, col b).

Definition cellEqb (p q : Z * Z) : bool :=
  (fst p =? fst q) && (snd p =? snd q).

Fixpoint distinct (l : list (Z * Z)) : bool :=
  match l with
  | [] => true
  | p :: t => negb (existsb (cellEqb p) t) && distinct t
  end.

Definition inLattice (p : Z * Z) : bool :=
  (0 <=? fst p) && (fst p <? GRID_ROWS) && (0 <=? snd p) && (snd p <? GRID_COLS).

Definition lattice_ok (g : Grid) : bool :=
  forallb inLattice (map cell (flat g)) && distinct (map cell (flat g)).

Definition uniform (rows : list Z) : bool :=
  match rows with
  | [] => true
  | r :: t => forallb (Z.eqb r) t
  end.

Definition rows_uniform (g : Grid) : bool :=
  forallb (fun rw => uniform (map row rw)) g.

Definition valueOk (v : Z) : bool := (1 <=? v) && (v <=? MAX_VALUE).

Definition values_ok (g : Grid) : bool :=
  forallb valueOk (map value (flat g)).

Definition grid_ok (g : Grid) : bool :=
  lattice_ok g && rows_uniform g && values_ok g.

(** What a block keeps when it moves. *)
Definition core (b : Block) : string * Z * Z := (id b, value b, col b).

(** The rows given out by [forEach] in the clearing updater, as a list:
    the block at position [i] of [l] gets row [GRID_ROWS - 1 - (index + i)]. *)
Fixpoint settleFrom (index : Z) (l : list Block) : list Block :=
  match l with
  | [] => []
  | b :: t => withRow b (GRID_ROWS - 1 - index) :: settleFrom (index + 1) t
  end.

(** Every block of the [i]-th inner array has row [k + i]. *)
Fixpoint rowsFrom (k : Z) (g : Grid) : Prop :=
  match g with
  | [] => True
  | rw :: t => Forall (fun b => row b = k) rw /\ rowsFrom (k + 1) t
  end.

(** A trace of one round: no [Start] in it. *)
Definition withinRound (trace : list (Rand * Event)) : bool :=
  forallb (fun re => match snd re with Start _ => false | _ => true end) trace.

(** A trace in which only blocks present in the grid are clicked. *)
Fixpoint clicksPresent (trace : list (Rand * Event)) (st : GameState) : Prop :=
  match trace with
  | [] => True
  | (r, e) :: rest =>
      match e with
      | Click b => In b (flat (grid st))
      | _ => True
      end /\
      match transition r e st with
      | Some st' => clicksPresent rest st'
      | None => True
      end
  end.

(** The invariant of the component: the grid is well formed, the combo
    is a multiplier between 1 and 5 that stays at 1 in classic mode, and
    the target is not negative. *)
Definition Inv (st : GameState) : Prop :=
  grid_ok (grid st) = true /\
  1 <= combo st <= 5 /\
  0 <= target st /\
  (mode st = Some classic -> combo st = 1).

(** [t] is the sum of the values of between [lo] and [hi] blocks of [g],
    each block taken at most once. *)
Definition sumOfBlocks (lo hi : nat) (g : Grid) (t : Z) : Prop :=
  exists sub rest,
    Permutation (sub ++ rest) (flat g) /\
    (lo <= length sub <= hi)%nat /\
    sumValues sub = t.

(** The ids of the blocks of a grid. *)
Definition idsOf (g : Grid) : list string := map id (flat g).

(** ** Sample data *)

(** A random source whose [i]-th draw reads as the one-character text of
    code [48 + i] and as the integer [i]. *)
Definition sampleRand : Rand :=
  mkRand (fun i => mkDraw (String (ascii_of_nat (48 + i)) EmptyString) i) 0.

(** The state after [startGame('classic')] on the mounted component. *)
Definition startedState : GameState :=
  fst (startGame classic sampleRand initialState).

(** In [startedState] the target is 10 and row 6 holds a 2 in column 0
    and an 8 in column 3: both are clicked, then the check-sum effect
    runs. *)
Definition scoringTrace : list (Rand * Event) :=
  [(sampleRand, Click (mkBlock "0" 2 6 0));
   (sampleRand, Click (mkBlock "6" 8 6 3));
   (sampleRand, Evaluate)].

(** The state in which the two blocks are selected. *)
Definition selectedState : GameState :=
  Eval vm_compute in
    match run (firstn 2 scoringTrace) startedState with
    | Some st => st
    | None => initialState
    end.

Definition scoredState : GameState :=
  Eval vm_compute in
    match run scoringTrace startedState with
    | Some st => st
    | None => initialState
    end.

(** Blocks 3, 4, 2 and 5 on the bottom row. *)
Definition bottomRow : Grid :=
  [[mkBlock "a" 3 9 0; mkBlock "b" 4 9 1; mkBlock "c" 2 9 2; mkBlock "d" 5 9 3]].

(** Time mode, target 9, the blocks 3, 4 and 2 selected, combo 2. *)
Definition successState : GameState :=
  mkState (Some time) bottomRow 9 ["a"; "b"; "c"]%string 0 false 10 false 2.

(** Target 6, the blocks 3 and 4 selected: a bust. *)
Definition bustState : GameState :=
  mkState (Some time) bottomRow 6 ["a"; "b"]%string 40 false 7 false 3.

(** Column 2 holds blocks at rows 5, 7 and 9; column 3 one block. *)
Definition gravityGrid : Grid :=
  [[mkBlock "p" 3 5 2]; [mkBlock "q" 4 7 2; mkBlock "x" 1 7 3];
   [mkBlock "s" 2 9 2]].

(** A grid that reaches the top row. *)
Definition towerGrid : Grid :=
  map (fun r => [mkBlock "t" 1 (Z.of_nat r) 0]) (seq 0 10).

Definition towerState : GameState :=
  mkState (Some classic) towerGrid 5 [] 0 false 10 false 1.

(** A grid with a single block. *)
Definition loneGrid : Grid := [[mkBlock "z" 5 9 0]].

(** A block that is on no grid of the samples. *)
Definition ghost : Block := mkBlock "ghost" 1 0 0.

(** ** The high score (part_000, 266-272)

    [if (score > highScore) setHighScore(score)], the effect that runs
    after every render in which the score or the high score changed. *)

Definition updateHighScore (currentScore highScore : Z) : Z :=
  if currentScore >? highScore then currentScore else highScore.

(** The component with its high score: the effect runs after every
    transition. *)
Fixpoint runHighScore (trace : list (Rand * Event)) (st : GameState)
  (highScore : Z) : option (GameState * Z) :=
  match trace with
  | [] => Some (st, highScore)
  | (r, e) :: rest =>
      match transition r e st with
      | Some st' => runHighScore rest st' (updateHighScore (score st') highScore)
      | None => None
      end
  end.

(** ** The leaderboard (part_000, 244-264)

    An entry is the object [{ name, score, date }] built by the effect; a
    leaderboard is the object [{ classic: [...], time: [...] }], read as
    [prev[mode]] and written as [{ ...prev, [mode]: newList }]: a list of
    entries for each mode.  The writes to [localStorage] are left out. *)

Module Leader.

(** Modelled from the spec: the declarations of [LeaderboardEntry] and
    [Leaderboard] that [App] imports are not in [types.ts]; an entry is
    [{name, score, date}], as the object built by the effect, and a
    leaderboard holds one list of entries for each mode, as its initial
    value [{ classic: [], time: [] }]. *)
Record LeaderboardEntry : Type := mkEntry {
  name : string;
  score : Z;
  date : string
}.

Definition Leaderboard : Type := GameMode -> list LeaderboardEntry.

(** [.sort((a, b) => b.score - a.score)]: stable, highest score first. *)
Fixpoint insertByScore (e : LeaderboardEntry) (l : list LeaderboardEntry)
  : list LeaderboardEntry :=
  match l with
  | [] => [e]
  | x :: t => if score e <? score x then x :: insertByScore e t else e :: x :: t
  end.

Fixpoint sortByScore (l : list LeaderboardEntry) : list LeaderboardEntry :=
  match l with
  | [] => []
  | e :: t => insertByScore e (sortByScore t)
  end.

(** [[...currentList, entry].sort(...).slice(0, 10)] *)
Definition newList (currentList : list LeaderboardEntry)
  (entry : LeaderboardEntry) : list LeaderboardEntry :=
  firstn 10 (sortByScore (currentList ++ [entry])).

Definition sameMode (a b : GameMode) : bool :=
  match a, b with
  | classic, classic => true
  | time, time => true
  | _, _ => false
  end.

(** [{ ...prev, [mode]: newList }] *)
Definition withList (prev : Leaderboard) (m : GameMode)
  (l : list LeaderboardEntry) : Leaderboard :=
  fun m' => if sameMode m' m then l else prev m'.

End Leader.

(** The name shown for a player who gave none. *)
Definition anonymous : string := "匿名玩家".

(** The effect that saves the score when the game is over; [today] is
    [new Date().toLocaleDateString()]. *)
Definition saveScore (playerName today : string) (st : GameState)
  (prev : Leader.Leaderboard) : Leader.Leaderboard :=
  if gameOver st then
    match mode st with
    | Some m =>
        let entry :=
          Leader.mkEntry
            (if String.eqb playerName EmptyString then anonymous else playerName)
            (score st) today in
        Leader.withList prev m (Leader.newList (prev m) entry)
    | None => prev
    end
  else prev.

(** ** Further invariants of the component *)

(** No gap below a block: a block above the bottom row has a block in the
    cell under it. *)
Definition supported (cells : list (Z * Z)) (p : Z * Z) : bool :=
  (fst p =? GRID_ROWS - 1) || existsb (cellEqb (fst p + 1, snd p)) cells.

Definition compact (g : Grid) : bool :=
  forallb (supported (map cell (flat g))) (map cell (flat g)).

(** The timer shows between 1 and [TIME_LIMIT] seconds, no id is selected
    twice, the columns have no gaps, and the target is 0 only before the
    first game, when the grid is empty and no mode is chosen, between 1
    and [4 * MAX_VALUE] afterwards. *)
Definition Inv2 (st : GameState) : Prop :=
  compact (grid st) = true /\
  1 <= timeLeft st <= TIME_LIMIT /\
  NoDup (selectedIds st) /\
  (target st = 0 /\ grid st = [] /\ mode st = None \/
   1 <= target st <= 4 * MAX_VALUE).

(** A board of three scores, and a full board of ten. *)
Definition sampleBoard : list Leader.LeaderboardEntry :=
  [Leader.mkEntry "ann" 90 "d1"; Leader.mkEntry "bob" 50 "d2";
   Leader.mkEntry "cy" 50 "d3"].

Definition fullBoard : list Leader.LeaderboardEntry :=
  map (fun k => Leader.mkEntry "p" (100 - 10 * Z.of_nat k) "d") (seq 0 10).

(** Time mode, the tower grid, one second left. *)
Definition lastSecondState : GameState :=
  mkState (Some time) towerGrid 5 [] 0 false 1 false 3.


(** The game of [towerState], over. *)
Definition overState : GameState :=
  mkState (Some classic) towerGrid 5 [] 120 true 10 false 1.

(** * Proofs *)

(** ** Lists *)

Lemma In_flat (g : Grid) (b : Block) :
  In b (flat g) <-> exists rw, In rw g /\ In b rw.
Proof.
  unfold flat. rewrite in_concat. split; intros [rw H]; exists rw; tauto.
Qed.

Lemma flat_app (g h : Grid) : flat (g ++ h) = flat g ++ flat h.
Proof. unfold flat. apply concat_app. Qed.

Lemma flat_cons (rw : list Block) (g : Grid) : flat (rw :: g) = rw ++ flat g.
Proof. reflexivity. Qed.

Lemma sumValues_acc (l : list Block) (a : Z) :
  fold_left (fun acc b => acc + value b) l a = a + sumValues l.
Proof.
  unfold sumValues. revert a.
  induction l as [|b l IH]; intros a; simpl.
  - lia.
  - rewrite IH, (IH (value b)). lia.
Qed.

Lemma sumValues_cons (b : Block) (l : list Block) :
  sumValues (b :: l) = value b + sumValues l.
Proof. unfold sumValues at 1. simpl. apply sumValues_acc. Qed.

Lemma sumValues_nonneg (l : list Block) :
  Forall (fun b => 0 <= value b) l -> 0 <= sumValues l.
Proof.
  induction 1 as [|b l Hb _ IH].
  - unfold sumValues. simpl. lia.
  - rewrite sumValues_cons. lia.
Qed.

Lemma cellEqb_eq (p q : Z * Z) : cellEqb p q = true <-> p = q.
Proof.
  destruct p as [a b], q as [c d]. unfold cellEqb. simpl.
  rewrite andb_true_iff, !Z.eqb_eq. split.
  - intros [-> ->]. reflexivity.
  - intros H. inversion H. auto.
Qed.

Lemma distinct_NoDup (l : list (Z * Z)) : distinct l = true <-> NoDup l.
Proof.
  induction l as [|p t IH]; simpl.
  - split; [constructor | reflexivity].
  - rewrite andb_true_iff, negb_true_iff, IH. split.
    + intros [Hn Ht]. constructor; [|exact Ht].
      intros Hin.
      assert (existsb (cellEqb p) t = true) as E.
      { apply existsb_exists. exists p. split; [exact Hin|]. now apply cellEqb_eq. }
      congruence.
    + intros H. inversion H as [|x l' Hn Ht]; subst. split; [|exact Ht].
      destruct (existsb (cellEqb p) t) eqn:E; [|reflexivity].
      apply existsb_exists in E. destruct E as [q [Hq Heq]].
      apply cellEqb_eq in Heq. subst q. contradiction.
Qed.

Lemma inLattice_spec (p : Z * Z) :
  inLattice p = true <->
  0 <= fst p < GRID_ROWS /\ 0 <= snd p < GRID_COLS.
Proof.
  unfold inLattice. rewrite !andb_true_iff, !Z.leb_le, !Z.ltb_lt. lia.
Qed.

Lemma lattice_ok_spec (g : Grid) :
  lattice_ok g = true <->
  (forall b, In b (flat g) ->
     0 <= row b < GRID_ROWS /\ 0 <= col b < GRID_COLS) /\
  NoDup (map cell (flat g)).
Proof.
  unfold lattice_ok. rewrite andb_true_iff, distinct_NoDup, forallb_forall.
  split; intros [H1 H2]; split; try exact H2.
  - intros b Hb. apply (inLattice_spec (cell b)). apply H1. now apply in_map.
  - intros p Hp. apply in_map_iff in Hp. destruct Hp as [b [<- Hb]].
    apply inLattice_spec. simpl. now apply H1.
Qed.

Lemma uniform_spec (rows : list Z) :
  uniform rows = true <-> forall a b, In a rows -> In b rows -> a = b.
Proof.
  destruct rows as [|r t]; simpl.
  - split; [intros _ a b [] | reflexivity].
  - rewrite forallb_forall. split.
    + intros H a b Ha Hb.
      assert (forall x, r = x \/ In x t -> x = r) as E.
      { intros x [->|Hx]; [reflexivity|]. symmetry. apply Z.eqb_eq. now apply H. }
      rewrite (E a Ha), (E b Hb). reflexivity.
    + intros H x Hx. apply Z.eqb_eq. apply H; auto.
Qed.

Lemma rows_uniform_spec (g : Grid) :
  rows_uniform g = true <->
  forall rw a b, In rw g -> In a rw -> In b rw -> row a = row b.
Proof.
  unfold rows_uniform. rewrite forallb_forall. split.
  - intros H rw a b Hrw Ha Hb.
    apply (proj1 (uniform_spec (map row rw)) (H rw Hrw)); now apply in_map.
  - intros H rw Hrw. apply uniform_spec. intros x y Hx Hy.
    apply in_map_iff in Hx. destruct Hx as [a [<- Ha]].
    apply in_map_iff in Hy. destruct Hy as [b [<- Hb]].
    now apply (H rw).
Qed.

Lemma values_ok_spec (g : Grid) :
  values_ok g = true <->
  forall b, In b (flat g) -> 1 <= value b <= MAX_VALUE.
Proof.
  unfold values_ok, valueOk. rewrite forallb_forall. split.
  - intros H b Hb.
    specialize (H (value b) (in_map value _ _ Hb)).
    rewrite andb_true_iff, !Z.leb_le in H. exact H.
  - intros H v Hv. apply in_map_iff in Hv. destruct Hv as [b [<- Hb]].
    rewrite andb_true_iff, !Z.leb_le. now apply H.
Qed.

(** ** The block factory *)

Lemma randomBelow_lt (k : nat) (r : Rand) :
  (0 < k)%nat -> (fst (randomBelow k r) < k)%nat.
Proof.
  intros Hk. unfold randomBelow, random. simpl.
  apply Nat.mod_upper_bound. lia.
Qed.

Lemma createBlock_cell (rw cl : Z) (r : Rand) :
  cell (fst (createBlock rw cl r)) = (rw, cl).
Proof. reflexivity. Qed.

Lemma createBlock_value (rw cl : Z) (r : Rand) :
  1 <= value (fst (createBlock rw cl r)) <= MAX_VALUE.
Proof.
  unfold createBlock, generateId, randomBelow, random.
  cbn [fst snd value source cursor].
  pose proof (Nat.mod_upper_bound (scaled (source r (S (cursor r))))
                (Z.to_nat MAX_VALUE)) as H.
  unfold MAX_VALUE in *. lia.
Qed.

Lemma createRow_cells (rw : Z) (n : nat) (from : Z) (r : Rand) :
  map cell (fst (createRow rw n from r)) =
  map (fun k => (rw, from + Z.of_nat k)) (seq 0 n).
Proof.
  revert from r. induction n as [|n IH]; intros from r.
  - reflexivity.
  - cbn [createRow].
    destruct (createBlock rw from r) as [b r1] eqn:Eb.
    destruct (createRow rw n (from + 1) r1) as [bs r2] eqn:Ebs.
    cbn [fst map seq].
    replace b with (fst (createBlock rw from r)) by now rewrite Eb.
    rewrite createBlock_cell.
    replace bs with (fst (createRow rw n (from + 1) r1)) by now rewrite Ebs.
    rewrite IH, <- seq_shift, map_map. f_equal.
    + f_equal. simpl. lia.
    + apply map_ext. intros k. f_equal. lia.
Qed.

Lemma createRow_values (rw : Z) (n : nat) (from : Z) (r : Rand) :
  Forall (fun b => 1 <= value b <= MAX_VALUE) (fst (createRow rw n from r)).
Proof.
  revert from r. induction n as [|n IH]; intros from r.
  - constructor.
  - cbn [createRow].
    destruct (createBlock rw from r) as [b r1] eqn:Eb.
    destruct (createRow rw n (from + 1) r1) as [bs r2] eqn:Ebs.
    cbn [fst]. constructor.
    + replace b with (fst (createBlock rw from r)) by now rewrite Eb.
      apply createBlock_value.
    + replace bs with (fst (createRow rw n (from + 1) r1)) by now rewrite Ebs.
      apply IH.
Qed.

Lemma createRows_cells (n : nat) (from : Z) (r : Rand) :
  map (map cell) (fst (createRows n from r)) =
  map (fun i => map (fun k => (from + Z.of_nat i, 0 + Z.of_nat k))
                    (seq 0 (Z.to_nat GRID_COLS)))
      (seq 0 n).
Proof.
  revert from r. induction n as [|n IH]; intros from r.
  - reflexivity.
  - cbn [createRows].
    destruct (createRow from (Z.to_nat GRID_COLS) 0 r) as [rw r1] eqn:Erw.
    destruct (createRows n (from + 1) r1) as [rest r2] eqn:Erest.
    cbn [fst map seq].
    replace rw with (fst (createRow from (Z.to_nat GRID_COLS) 0 r))
      by now rewrite Erw.
    rewrite createRow_cells.
    replace rest with (fst (createRows n (from + 1) r1)) by now rewrite Erest.
    rewrite IH, <- seq_shift, map_map. f_equal.
    + apply map_ext. intros k. f_equal. simpl. lia.
    + apply map_ext. intros i. apply map_ext. intros k. f_equal. lia.
Qed.

Lemma createRows_values (n : nat) (from : Z) (r : Rand) :
  Forall (fun b => 1 <= value b <= MAX_VALUE) (flat (fst (createRows n from r))).
Proof.
  revert from r. induction n as [|n IH]; intros from r.
  - constructor.
  - cbn [createRows].
    destruct (createRow from (Z.to_nat GRID_COLS) 0 r) as [rw r1] eqn:Erw.
    destruct (createRows n (from + 1) r1) as [rest r2] eqn:Erest.
    cbn [fst]. rewrite flat_cons. apply Forall_app. split.
    + replace rw with (fst (createRow from (Z.to_nat GRID_COLS) 0 r))
        by now rewrite Erw.
      apply createRow_values.
    + replace rest with (fst (createRows n (from + 1) r1)) by now rewrite Erest.
      apply IH.
Qed.

(** The three checks read a grid through its cells and values only. *)
Lemma lattice_ok_cells (g h : Grid) :
  map (map cell) g = map (map cell) h -> lattice_ok g = lattice_ok h.
Proof.
  intros E. unfold lattice_ok, flat. now rewrite !concat_map, E.
Qed.

Lemma rows_uniform_cells (g h : Grid) :
  map (map cell) g = map (map cell) h -> rows_uniform g = rows_uniform h.
Proof.
  intros E. unfold rows_uniform.
  assert (map (map row) g = map (map row) h) as E'.
  { assert (forall x : Grid, map (map row) x = map (map fst) (map (map cell) x)) as F.
    { intros x. rewrite map_map. apply map_ext. intros rw.
      rewrite map_map. reflexivity. }
    now rewrite !F, E. }
  clear E. revert h E'. induction g as [|rw g IH]; intros [|rw' h] E'; try discriminate.
  - reflexivity.
  - simpl in *. inversion E' as [[E1 E2]]. now rewrite E1, (IH h E2).
Qed.

Lemma grid_ok_by_cells (g h : Grid) :
  map (map cell) g = map (map cell) h ->
  lattice_ok h && rows_uniform h = true ->
  Forall (fun b => 1 <= value b <= MAX_VALUE) (flat g) ->
  grid_ok g = true.
Proof.
  intros E Hh Hv. unfold grid_ok.
  rewrite (lattice_ok_cells g h E), (rows_uniform_cells g h E), Hh.
  apply values_ok_spec. now apply Forall_forall.
Qed.

Lemma initialGrid_ok (r : Rand) :
  grid_ok (fst (createRows (Z.to_nat INITIAL_ROWS) (GRID_ROWS - INITIAL_ROWS) r))
  = true.
Proof.
  apply grid_ok_by_cells with
    (h := map (map (fun p : Z * Z => mkBlock EmptyString 1 (fst p) (snd p)))
           (map (fun i => map (fun k => (GRID_ROWS - INITIAL_ROWS + Z.of_nat i, 0 + Z.of_nat k))
                    (seq 0 (Z.to_nat GRID_COLS)))
      (seq 0 (Z.to_nat INITIAL_ROWS)))).
  - rewrite createRows_cells. vm_compute. reflexivity.
  - vm_compute. reflexivity.
  - apply createRows_values.
Qed.

(** ** addNewRow *)

Lemma topRow_sound (g : Grid) :
  existsb topRow g = true -> exists b, In b (flat g) /\ row b = 0.
Proof.
  intros H. apply existsb_exists in H. destruct H as [rw [Hrw Ht]].
  destruct rw as [|b t]; [discriminate|]. simpl in Ht.
  exists b. split.
  - apply In_flat. exists (b :: t). split; [exact Hrw | now left].
  - now apply Z.eqb_eq.
Qed.

Lemma topRow_complete (g : Grid) :
  rows_uniform g = true ->
  (exists b, In b (flat g) /\ row b = 0) -> existsb topRow g = true.
Proof.
  intros Hu [b [Hb H0]]. apply In_flat in Hb. destruct Hb as [rw [Hrw Hin]].
  apply existsb_exists. exists rw. split; [exact Hrw|].
  destruct rw as [|h t]; [destruct Hin|]. simpl. apply Z.eqb_eq.
  rewrite <- H0.
  apply (proj1 (rows_uniform_spec g) Hu (h :: t)); auto. now left.
Qed.

Lemma addNewRow_full (r : Rand) (st : GameState) :
  existsb topRow (grid st) = true ->
  addNewRow r st =
  (mkState (mode st) (grid st) (target st) (selectedIds st) (score st) true
           (timeLeft st) (isPaused st) (combo st), r).
Proof. intros H. unfold addNewRow. now rewrite H. Qed.

Lemma addNewRow_shift (r : Rand) (st : GameState) :
  existsb topRow (grid st) = false ->
  addNewRow r st =
  (mkState (mode st)
           (shiftUp (grid st) ++
            [fst (createRow (GRID_ROWS - 1) (Z.to_nat GRID_COLS) 0 r)])
           (target st) (selectedIds st) (score st) (gameOver st)
           (timeLeft st) (isPaused st) (combo st),
   snd (createRow (GRID_ROWS - 1) (Z.to_nat GRID_COLS) 0 r)).
Proof.
  intros H. unfold addNewRow. rewrite H.
  now destruct (createRow (GRID_ROWS - 1) (Z.to_nat GRID_COLS) 0 r).
Qed.

(** [addNewRow] writes the grid and [gameOver] only. *)
Lemma addNewRow_frame (r : Rand) (st : GameState) :
  let st' := fst (addNewRow r st) in
  mode st' = mode st /\ target st' = target st /\
  selectedIds st' = selectedIds st /\ score st' = score st /\
  timeLeft st' = timeLeft st /\ isPaused st' = isPaused st /\
  combo st' = combo st.
Proof.
  destruct (existsb topRow (grid st)) eqn:E.
  - rewrite (addNewRow_full r st E). simpl. tauto.
  - rewrite (addNewRow_shift r st E). simpl. tauto.
Qed.

Lemma flat_shiftUp (g : Grid) :
  flat (shiftUp g) = map (fun b => withRow b (row b - 1)) (flat g).
Proof. unfold flat, shiftUp. now rewrite concat_map. Qed.

Lemma NoDup_map_inj {A B : Type} (f : A -> B) (l : list A) :
  (forall x y, f x = f y -> x = y) -> NoDup l -> NoDup (map f l).
Proof.
  intros Hf. induction 1 as [|x l Hx _ IH]; simpl; constructor; [|exact IH].
  intros Hin. apply in_map_iff in Hin. destruct Hin as [y [E Hy]].
  apply Hf in E. now subst y.
Qed.

Lemma newRow_cells (r : Rand) :
  map cell (fst (createRow (GRID_ROWS - 1) (Z.to_nat GRID_COLS) 0 r)) =
  [(9, 0); (9, 1); (9, 2); (9, 3); (9, 4); (9, 5); (9, 6)].
Proof. rewrite createRow_cells. reflexivity. Qed.

Lemma newRow_In (r : Rand) (b : Block) :
  In b (fst (createRow (GRID_ROWS - 1) (Z.to_nat GRID_COLS) 0 r)) ->
  row b = GRID_ROWS - 1 /\ 0 <= col b < GRID_COLS /\
  1 <= value b <= MAX_VALUE.
Proof.
  intros Hb.
  assert (In (cell b) [(9, 0); (9, 1); (9, 2); (9, 3); (9, 4); (9, 5); (9, 6)]) as Hc.
  { rewrite <- (newRow_cells r). now apply in_map. }
  pose proof (createRow_values (GRID_ROWS - 1) (Z.to_nat GRID_COLS) 0 r) as Hv.
  rewrite Forall_forall in Hv. specialize (Hv b Hb).
  unfold cell, GRID_ROWS, GRID_COLS in *. simpl in Hc.
  repeat (destruct Hc as [Hc|Hc]; [inversion Hc; lia|]). destruct Hc.
Qed.

Lemma addNewRow_grid_ok (r : Rand) (st : GameState) :
  grid_ok (grid st) = true -> grid_ok (grid (fst (addNewRow r st))) = true.
Proof.
  intros Hok. destruct (existsb topRow (grid st)) eqn:E.
  - now rewrite (addNewRow_full r st E).
  - rewrite (addNewRow_shift r st E). cbn [fst grid].
    unfold grid_ok in *. rewrite !andb_true_iff in Hok.
    destruct Hok as [[Hl Hu] Hv].
    assert (forall b, In b (flat (grid st)) -> row b <> 0) as Hnz.
    { intros b Hb H0.
      rewrite (topRow_complete (grid st) Hu) in E; [discriminate|].
      now exists b. }
    apply lattice_ok_spec in Hl. destruct Hl as [Hin Hnd].
    set (nr := fst (createRow (GRID_ROWS - 1) (Z.to_nat GRID_COLS) 0 r)).
    rewrite !andb_true_iff. repeat split.
    + apply lattice_ok_spec. rewrite flat_app, flat_shiftUp.
      replace (flat [nr]) with nr by (symmetry; apply app_nil_r).
      split.
      * intros b Hb. apply in_app_or in Hb. destruct Hb as [Hb|Hb].
        -- apply in_map_iff in Hb. destruct Hb as [b0 [<- Hb0]]. simpl.
           specialize (Hin b0 Hb0). specialize (Hnz b0 Hb0). lia.
        -- apply newRow_In in Hb. unfold GRID_ROWS in *. lia.
      * rewrite map_app. apply NoDup_app.
        -- rewrite map_map.
           replace (map (fun x => cell (withRow x (row x - 1))) (flat (grid st)))
             with (map (fun p : Z * Z => (fst p - 1, snd p)) (map cell (flat (grid st))))
             by (rewrite map_map; reflexivity).
           apply NoDup_map_inj; [|exact Hnd].
           intros [a b] [c d] H. simpl in H. inversion H. f_equal; lia.
        -- unfold nr. rewrite newRow_cells. apply distinct_NoDup. reflexivity.
        -- intros p Hp Hq. rewrite map_map in Hp. apply in_map_iff in Hp.
           destruct Hp as [b0 [<- Hb0]].
           apply in_map_iff in Hq. destruct Hq as [b1 [Hc Hb1]].
           apply newRow_In in Hb1. specialize (Hin b0 Hb0).
           unfold cell in Hc. simpl in Hc. inversion Hc. lia.
    + apply rows_uniform_spec. intros rw a b Hrw Ha Hb.
      apply in_app_or in Hrw. destruct Hrw as [Hrw|[<-|[]]].
      * unfold shiftUp in Hrw. apply in_map_iff in Hrw.
        destruct Hrw as [rw0 [<- Hrw0]].
        apply in_map_iff in Ha. destruct Ha as [a0 [<- Ha0]].
        apply in_map_iff in Hb. destruct Hb as [b0 [<- Hb0]]. simpl.
        rewrite (proj1 (rows_uniform_spec (grid st)) Hu rw0 a0 b0); auto.
      * apply newRow_In in Ha, Hb. lia.
    + apply values_ok_spec. rewrite flat_app, flat_shiftUp.
      intros b Hb. apply in_app_or in Hb. destruct Hb as [Hb|Hb].
      * apply in_map_iff in Hb. destruct Hb as [b0 [<- Hb0]]. simpl.
        now apply (proj1 (values_ok_spec (grid st)) Hv).
      * replace (flat [nr]) with nr in Hb by (symmetry; apply app_nil_r).
        now apply newRow_In in Hb.
Qed.

(** ** Sorting a column *)

Lemma insertDesc_perm (b : Block) (l : list Block) :
  Permutation (insertDesc b l) (b :: l).
Proof.
  induction l as [|x t IH]; simpl.
  - reflexivity.
  - destruct (row b <? row x).
    + rewrite IH. apply perm_swap.
    + reflexivity.
Qed.

Lemma sortDesc_perm (l : list Block) : Permutation (sortDesc l) l.
Proof.
  induction l as [|b t IH]; simpl.
  - reflexivity.
  - rewrite insertDesc_perm. now constructor.
Qed.

(** [descending l]: rows do not increase along [l]. *)
Lemma insertDesc_sorted (b : Block) (l : list Block) :
  StronglySorted (fun x y => row y <= row x) l ->
  StronglySorted (fun x y => row y <= row x) (insertDesc b l).
Proof.
  induction 1 as [|x t Ht IH Hx]; simpl.
  - constructor; constructor.
  - destruct (row b <? row x) eqn:E.
    + apply Z.ltb_lt in E. constructor; [exact IH|].
      rewrite Forall_forall in *. intros y Hy.
      apply (Permutation_in _ (insertDesc_perm b t)) in Hy.
      destruct Hy as [<-|Hy]; [lia | now apply Hx].
    + apply Z.ltb_ge in E. constructor; [now constructor|].
      constructor; [exact E|].
      rewrite Forall_forall in *. intros y Hy. specialize (Hx y Hy). lia.
Qed.

Lemma sortDesc_sorted (l : list Block) :
  StronglySorted (fun x y => row y <= row x) (sortDesc l).
Proof.
  induction l as [|b t IH]; simpl.
  - constructor.
  - now apply insertDesc_sorted.
Qed.

(** ** The rows given out by the clearing updater *)

Lemma settleFrom_length (k : Z) (l : list Block) :
  length (settleFrom k l) = length l.
Proof. revert k. induction l as [|b t IH]; intros k; simpl; auto. Qed.

Lemma settleFrom_core (k : Z) (l : list Block) :
  map core (settleFrom k l) = map core l.
Proof.
  revert k. induction l as [|b t IH]; intros k; simpl.
  - reflexivity.
  - now rewrite IH.
Qed.

Lemma settleFrom_nth (k : Z) (l : list Block) (i : nat) :
  nth_error (settleFrom k l) i =
  option_map (fun b => withRow b (GRID_ROWS - 1 - (k + Z.of_nat i)))
             (nth_error l i).
Proof.
  revert k i. induction l as [|b t IH]; intros k i.
  - now destruct i.
  - destruct i as [|i]; cbn [settleFrom nth_error option_map].
    + f_equal. unfold withRow. f_equal. lia.
    + rewrite IH. destruct (nth_error t i); cbn [option_map]; [|reflexivity].
      f_equal. unfold withRow. f_equal. lia.
Qed.

Lemma settleFrom_In (k : Z) (l : list Block) (b : Block) :
  In b (settleFrom k l) ->
  exists b0, In b0 l /\ core b = core b0 /\
             GRID_ROWS - 1 - (k + Z.of_nat (length l)) < row b <= GRID_ROWS - 1 - k.
Proof.
  revert k. induction l as [|x t IH]; intros k; cbn [settleFrom In length].
  - intros [].
  - rewrite Nat2Z.inj_succ. intros [<-|Hb].
    + exists x. split; [now left|]. split; [reflexivity|].
      cbn [row withRow]. lia.
    + destruct (IH _ Hb) as [b0 [H0 [Hc Hr]]].
      exists b0. split; [now right|]. split; [exact Hc|]. lia.
Qed.

Lemma settleFrom_rows_NoDup (k : Z) (l : list Block) :
  NoDup (map row (settleFrom k l)).
Proof.
  revert k. induction l as [|x t IH]; intros k; cbn [settleFrom map row withRow].
  - constructor.
  - constructor; [|apply IH].
    intros Hin. apply in_map_iff in Hin. destruct Hin as [b [Hr Hb]].
    apply settleFrom_In in Hb. destruct Hb as [_ [_ [_ Hb]]]. lia.
Qed.

(** ** Pushing into the new grid *)

Lemma pushAt_some (i : nat) (b : Block) (g : Grid) :
  (i < length g)%nat -> exists g', pushAt i b g = Some g'.
Proof.
  revert i. induction g as [|rw t IH]; intros i Hi; simpl in *.
  - lia.
  - destruct i as [|i]; cbn [pushAt].
    + eexists. reflexivity.
    + destruct (IH i) as [t' E]; [lia|]. rewrite E. eexists. reflexivity.
Qed.

Lemma pushAt_spec (i : nat) (b : Block) (g g' : Grid) (k : Z) :
  pushAt i b g = Some g' ->
  Permutation (flat g') (b :: flat g) /\
  length g' = length g /\
  (rowsFrom k g -> row b = k + Z.of_nat i -> rowsFrom k g').
Proof.
  revert i g' k. induction g as [|rw t IH]; intros i g' k; simpl.
  - discriminate.
  - destruct i as [|i].
    + intros E. inversion E; subst g'. clear E. rewrite !flat_cons.
      split; [|split].
      * rewrite <- app_assoc. simpl.
        symmetry. apply Permutation_middle.
      * reflexivity.
      * intros [Hrw Ht] Hb. simpl. split; [|exact Ht].
        apply Forall_app. split; [exact Hrw|]. constructor; [lia|constructor].
    + destruct (pushAt i b t) as [t'|] eqn:E; [|discriminate].
      intros E'. inversion E'; subst g'. clear E'.
      destruct (IH i t' (k + 1) E) as [Hp [Hl Hr]].
      rewrite !flat_cons. split; [|split].
      * rewrite Hp. symmetry. apply Permutation_middle.
      * simpl. now rewrite Hl.
      * intros [Hrw Ht] Hb. simpl. split; [exact Hrw|].
        apply Hr; [exact Ht | lia].
Qed.

Lemma placeColumn_spec (l : list Block) (index : Z) (g : Grid) :
  0 <= index ->
  index + Z.of_nat (length l) <= GRID_ROWS ->
  length g = Z.to_nat GRID_ROWS ->
  rowsFrom 0 g ->
  exists g', placeColumn l index g = Some g' /\
             Permutation (flat g') (settleFrom index l ++ flat g) /\
             length g' = length g /\ rowsFrom 0 g'.
Proof.
  revert index g. induction l as [|b t IH]; intros index g H0 Hlen Hg Hr.
  - exists g. simpl. auto.
  - cbn [placeColumn settleFrom]. cbn [length] in Hlen.
    unfold pushRow.
    assert (0 <= GRID_ROWS - 1 - index < GRID_ROWS) as Hrow
        by (unfold GRID_ROWS in *; lia).
    replace (GRID_ROWS - 1 - index <? 0) with false
      by (symmetry; apply Z.ltb_ge; lia).
    destruct (pushAt_some (Z.to_nat (GRID_ROWS - 1 - index))
                (withRow b (GRID_ROWS - 1 - index)) g) as [g1 E1].
    { rewrite Hg. unfold GRID_ROWS in *. lia. }
    rewrite E1.
    destruct (pushAt_spec _ _ _ _ 0 E1) as [Hp1 [Hl1 Hr1]].
    destruct (IH (index + 1) g1) as [g' [E' [Hp' [Hl' Hr']]]].
    + lia.
    + lia.
    + now rewrite Hl1.
    + apply Hr1; [exact Hr|]. cbn [row withRow]. lia.
    + exists g'. split; [exact E'|]. split; [|split].
      * rewrite Hp', Hp1. simpl. symmetry. apply Permutation_middle.
      * now rewrite Hl', Hl1.
      * exact Hr'.
Qed.

Lemma gravityLoop_spec (cols : list Z) (rem : list Block) (g : Grid) :
  (forall c, In c cols ->
     Z.of_nat (length (filter (inColumn c) rem)) <= GRID_ROWS) ->
  length g = Z.to_nat GRID_ROWS ->
  rowsFrom 0 g ->
  exists g', gravityLoop cols rem g = Some g' /\
             Permutation (flat g')
               (flat_map (fun c => settleFrom 0 (colBlocks rem c)) cols ++ flat g) /\
             rowsFrom 0 g'.
Proof.
  revert g. induction cols as [|c cs IH]; intros g Hb Hg Hr.
  - exists g. simpl. auto.
  - cbn [gravityLoop flat_map].
    destruct (placeColumn_spec (colBlocks rem c) 0 g)
      as [g1 [E1 [Hp1 [Hl1 Hr1]]]]; try assumption; try lia.
    { unfold colBlocks. rewrite (Permutation_length (sortDesc_perm _)).
      specialize (Hb c (or_introl eq_refl)). lia. }
    rewrite E1.
    destruct (IH g1) as [g' [E' [Hp' Hr']]].
    + intros c' Hc'. apply Hb. now right.
    + now rewrite Hl1.
    + exact Hr1.
    + exists g'. split; [exact E'|]. split; [|exact Hr'].
      rewrite Hp', Hp1, <- !app_assoc.
      apply Permutation_app_swap_app.
Qed.

Lemma flat_nonEmpty (g : Grid) : flat (filter nonEmptyRow g) = flat g.
Proof.
  unfold flat. induction g as [|rw t IH]; [reflexivity|].
  destruct rw as [|b rw]; simpl.
  - exact IH.
  - now rewrite IH.
Qed.

Lemma rowsFrom_uniform (k : Z) (g : Grid) :
  rowsFrom k g -> rows_uniform (filter nonEmptyRow g) = true.
Proof.
  intros H. apply rows_uniform_spec. revert k H.
  induction g as [|rw t IH]; intros k H rw' a b Hrw' Ha Hb.
  - destruct Hrw'.
  - destruct H as [Hrw Ht]. simpl in Hrw'.
    destruct (nonEmptyRow rw).
    + destruct Hrw' as [<-|Hrw'].
      * rewrite Forall_forall in Hrw. rewrite (Hrw a Ha), (Hrw b Hb). reflexivity.
      * now apply (IH (k + 1) Ht rw').
    + now apply (IH (k + 1) Ht rw').
Qed.

Lemma rowsFrom_repeat (k : Z) (n : nat) : rowsFrom k (repeat [] n).
Proof.
  revert k. induction n as [|n IH]; intros k; simpl; [exact I|].
  split; [constructor | apply IH].
Qed.

(** ** Columns of a well-formed grid *)

(** Dropping blocks keeps the cells distinct. *)
Lemma cells_filter_NoDup (keep : Block -> bool) (blocks : list Block) :
  NoDup (map cell blocks) -> NoDup (map cell (filter keep blocks)).
Proof.
  induction blocks as [|x t IH]; simpl; intros H; [constructor|].
  apply NoDup_cons_iff in H. destruct H as [Hx Ht].
  destruct (keep x); simpl; [|now apply IH].
  constructor; [|now apply IH].
  intros Hin. apply Hx. apply in_map_iff in Hin. destruct Hin as [y [E Hy]].
  apply filter_In in Hy. rewrite <- E. apply in_map. tauto.
Qed.

Lemma column_rows_NoDup (c : Z) (l : list Block) :
  (forall b, In b l -> col b = c) ->
  NoDup (map cell l) -> NoDup (map row l).
Proof.
  induction l as [|x t IH]; simpl; intros Hc H; [constructor|].
  inversion H as [|y l' Hx Ht]; subst.
  constructor; [|apply IH; auto].
  intros Hin. apply Hx. apply in_map_iff in Hin. destruct Hin as [y [E Hy]].
  apply in_map_iff. exists y. split; [|exact Hy].
  unfold cell. rewrite E, (Hc x), (Hc y); auto.
Qed.

Lemma rows_cells_NoDup (l : list Block) :
  NoDup (map row l) -> NoDup (map cell l).
Proof.
  intros H. apply (NoDup_map_inv fst). rewrite map_map. exact H.
Qed.

Lemma inColumn_spec (c : Z) (b : Block) : inColumn c b = true <-> col b = c.
Proof. unfold inColumn. apply Z.eqb_eq. Qed.

Lemma column_length (g : Grid) (f : Block -> bool) (c : Z) :
  lattice_ok g = true ->
  Z.of_nat (length (filter (inColumn c) (filter f (flat g)))) <= GRID_ROWS.
Proof.
  intros H. apply lattice_ok_spec in H. destruct H as [Hin Hnd].
  set (l := filter (inColumn c) (filter f (flat g))).
  assert (NoDup (map row l)) as Hrows.
  { apply (column_rows_NoDup c).
    - intros b Hb. apply filter_In in Hb. now apply inColumn_spec.
    - unfold l. now do 2 apply cells_filter_NoDup. }
  assert (incl (map row l) (map Z.of_nat (seq 0 (Z.to_nat GRID_ROWS)))) as Hincl.
  { intros x Hx. apply in_map_iff in Hx. destruct Hx as [b [<- Hb]].
    unfold l in Hb. apply filter_In in Hb. destruct Hb as [Hb _].
    apply filter_In in Hb. destruct Hb as [Hb _].
    specialize (Hin b Hb). apply in_map_iff. exists (Z.to_nat (row b)).
    split; [lia|]. apply in_seq. lia. }
  pose proof (NoDup_incl_length Hrows Hincl) as Hlen.
  rewrite !length_map, length_seq in Hlen. unfold GRID_ROWS in *. lia.
Qed.

Lemma columns_spec (c : Z) : In c columns <-> 0 <= c < GRID_COLS.
Proof.
  unfold columns. rewrite in_map_iff. split.
  - intros [k [<- Hk]]. apply in_seq in Hk. lia.
  - intros H. exists (Z.to_nat c). split; [lia|]. apply in_seq. lia.
Qed.

Lemma columns_NoDup : NoDup columns.
Proof.
  unfold columns. apply NoDup_map_inj; [intros x y; lia | apply seq_NoDup].
Qed.

(** ** Splitting a list of blocks by column *)

Lemma flat_map_nil {A B : Type} (l : list A) :
  flat_map (fun _ : A => @nil B) l = [].
Proof. induction l; simpl; auto. Qed.

Lemma flat_map_perm {A B : Type} (F G : A -> list B) (l : list A) :
  (forall a, In a l -> Permutation (F a) (G a)) ->
  Permutation (flat_map F l) (flat_map G l).
Proof.
  induction l as [|a t IH]; intros H; simpl; [constructor|].
  apply Permutation_app; [apply H; now left | apply IH].
  intros x Hx. apply H. now right.
Qed.

Lemma by_column_skip (b : Block) (t : list Block) (cols : list Z) :
  ~ In (col b) cols ->
  flat_map (fun c => filter (inColumn c) (b :: t)) cols =
  flat_map (fun c => filter (inColumn c) t) cols.
Proof.
  induction cols as [|c cs IH]; intros Hn; cbn [flat_map]; [reflexivity|].
  rewrite IH by (intros Hin; apply Hn; now right).
  f_equal. cbn [filter]. destruct (inColumn c b) eqn:E; [|reflexivity].
  apply inColumn_spec in E. exfalso. apply Hn. now left.
Qed.

Lemma by_column_cons (b : Block) (t : list Block) (cols : list Z) :
  NoDup cols -> In (col b) cols ->
  Permutation (flat_map (fun c => filter (inColumn c) (b :: t)) cols)
              (b :: flat_map (fun c => filter (inColumn c) t) cols).
Proof.
  induction 1 as [|c cs Hc Hcs IH]; intros Hin; [destruct Hin|].
  cbn [flat_map]. destruct (inColumn c b) eqn:E.
  - replace (filter (inColumn c) (b :: t)) with (b :: filter (inColumn c) t)
      by (cbn [filter]; now rewrite E).
    apply inColumn_spec in E. subst c.
    rewrite by_column_skip by exact Hc. reflexivity.
  - replace (filter (inColumn c) (b :: t)) with (filter (inColumn c) t)
      by (cbn [filter]; now rewrite E).
    destruct Hin as [->|Hin].
    + unfold inColumn in E. rewrite Z.eqb_refl in E. discriminate.
    + rewrite (IH Hin). symmetry. apply Permutation_middle.
Qed.

Lemma by_column_perm (l : list Block) (cols : list Z) :
  NoDup cols -> (forall b, In b l -> In (col b) cols) ->
  Permutation (flat_map (fun c => filter (inColumn c) l) cols) l.
Proof.
  intros Hnd. induction l as [|b t IH]; intros Hin.
  - simpl. now rewrite flat_map_nil.
  - rewrite by_column_cons; [|exact Hnd|apply Hin; now left].
    constructor. apply IH. intros x Hx. apply Hin. now right.
Qed.

Lemma filter_none {A : Type} (f : A -> bool) (l : list A) :
  (forall x, In x l -> f x = false) -> filter f l = [].
Proof.
  induction l as [|x t IH]; intros H; simpl; [reflexivity|].
  rewrite (H x (or_introl eq_refl)). apply IH. intros y Hy. apply H. now right.
Qed.

Lemma filter_flat_map_column (F : Z -> list Block) (cols : list Z) (c : Z) :
  NoDup cols -> In c cols ->
  (forall c' b, In b (F c') -> col b = c') ->
  filter (inColumn c) (flat_map F cols) = F c.
Proof.
  intros Hnd Hc HF.
  assert (forall c', c' <> c -> filter (inColumn c) (F c') = []) as Hout.
  { intros c' Hne. apply filter_none. intros b Hb.
    destruct (inColumn c b) eqn:E; [|reflexivity].
    apply inColumn_spec in E. rewrite (HF c' b Hb) in E. congruence. }
  assert (filter (inColumn c) (F c) = F c) as Hin.
  { apply forallb_filter_id. apply forallb_forall. intros b Hb.
    apply inColumn_spec. now apply HF. }
  induction Hnd as [|x cs Hx Hcs IH]; [destruct Hc|].
  cbn [flat_map]. rewrite filter_app. destruct Hc as [->|Hc].
  - rewrite Hin.
    assert (filter (inColumn c) (flat_map F cs) = []) as ->.
    { apply filter_none. intros b Hb. apply in_flat_map in Hb.
      destruct Hb as [c' [Hc' Hb]].
      destruct (inColumn c b) eqn:E; [|reflexivity].
      apply inColumn_spec in E. rewrite (HF c' b Hb) in E. subst c'.
      contradiction. }
    apply app_nil_r.
  - rewrite Hout, (IH Hc); [reflexivity|]. intros ->. contradiction.
Qed.

(** ** The clearing updater on a well-formed grid *)

Lemma filter_blocks_perm (keep : Block -> bool) (xs ys : list Block) :
  Permutation xs ys -> Permutation (filter keep xs) (filter keep ys).
Proof.
  induction 1 as [|x l l' _ IH|x y l|l l' l'' _ IH1 _ IH2]; simpl.
  - constructor.
  - destruct (keep x); [now constructor | exact IH].
  - destruct (keep x), (keep y); try reflexivity. apply perm_swap.
  - now transitivity (filter keep l').
Qed.

Lemma colBlocks_perm (rem : list Block) (c : Z) :
  Permutation (colBlocks rem c) (filter (inColumn c) rem).
Proof. apply sortDesc_perm. Qed.

Lemma colBlocks_In (rem : list Block) (c : Z) (b : Block) :
  In b (colBlocks rem c) <-> In b rem /\ col b = c.
Proof.
  rewrite <- inColumn_spec, <- filter_In. split; apply Permutation_in.
  - apply colBlocks_perm.
  - symmetry. apply colBlocks_perm.
Qed.

Lemma settled_In (rem : list Block) (c : Z) (b : Block) :
  In b (settleFrom 0 (colBlocks rem c)) ->
  col b = c /\
  GRID_ROWS - 1 - Z.of_nat (length (filter (inColumn c) rem)) < row b <= GRID_ROWS - 1 /\
  exists b0, In b0 rem /\ core b = core b0.
Proof.
  intros H. apply settleFrom_In in H. destruct H as [b0 [H0 [Hc Hr]]].
  apply colBlocks_In in H0. destruct H0 as [H0 Hc0].
  rewrite (Permutation_length (colBlocks_perm rem c)) in Hr.
  split; [|split].
  - unfold core in Hc. inversion Hc. congruence.
  - lia.
  - now exists b0.
Qed.

Lemma clear_spec (sel : list string) (g : Grid) :
  lattice_ok g = true ->
  exists g', clearAndCompact sel g = Some g' /\
             Permutation (flat g')
               (flat_map (fun c => settleFrom 0
                            (colBlocks (filter (unselected sel) (flat g)) c))
                         columns) /\
             rows_uniform g' = true.
Proof.
  intros Hok. unfold clearAndCompact.
  destruct (gravityLoop_spec columns (filter (unselected sel) (flat g))
              (repeat [] (Z.to_nat GRID_ROWS))) as [g1 [E [Hp Hr]]].
  - intros c _. now apply column_length.
  - apply repeat_length.
  - apply rowsFrom_repeat.
  - rewrite E. exists (filter nonEmptyRow g1). split; [reflexivity|]. split.
    + rewrite flat_nonEmpty, Hp.
      replace (flat (repeat [] (Z.to_nat GRID_ROWS))) with (@nil Block)
        by reflexivity.
      now rewrite app_nil_r.
    + now apply (rowsFrom_uniform 0).
Qed.

Lemma clear_column (sel : list string) (g g' : Grid) (c : Z) :
  lattice_ok g = true -> clearAndCompact sel g = Some g' ->
  0 <= c < GRID_COLS ->
  Permutation (filter (inColumn c) (flat g'))
              (settleFrom 0 (colBlocks (filter (unselected sel) (flat g)) c)).
Proof.
  intros Hok E Hc. destruct (clear_spec sel g Hok) as [g1 [E1 [Hp _]]].
  rewrite E in E1. inversion E1; subst g1. clear E1.
  rewrite (filter_blocks_perm (inColumn c) _ _ Hp).
  rewrite filter_flat_map_column; [reflexivity| apply columns_NoDup | |].
  - now apply columns_spec.
  - intros c' b Hb. now apply settled_In in Hb.
Qed.

Lemma clear_core (sel : list string) (g g' : Grid) :
  lattice_ok g = true -> clearAndCompact sel g = Some g' ->
  Permutation (map core (flat g'))
              (map core (filter (unselected sel) (flat g))).
Proof.
  intros Hok E. destruct (clear_spec sel g Hok) as [g1 [E1 [Hp _]]].
  rewrite E in E1. inversion E1; subst g1. clear E1.
  rewrite (Permutation_map core Hp).
  set (rem := filter (unselected sel) (flat g)).
  transitivity (map core (flat_map (fun c => filter (inColumn c) rem) columns)).
  - rewrite !flat_map_concat_map, !concat_map, !map_map.
    rewrite <- !flat_map_concat_map. apply flat_map_perm. intros c _.
    rewrite settleFrom_core. apply Permutation_map. apply colBlocks_perm.
  - apply Permutation_map. apply by_column_perm; [apply columns_NoDup|].
    intros b Hb. apply columns_spec. unfold rem in Hb. apply filter_In in Hb.
    apply lattice_ok_spec in Hok. now apply (proj1 Hok).
Qed.

Lemma NoDup_cells_by_column (F : Z -> list Block) (cols : list Z) :
  NoDup cols ->
  (forall c, NoDup (map cell (F c))) ->
  (forall c b, In b (F c) -> col b = c) ->
  NoDup (map cell (flat_map F cols)).
Proof.
  intros Hnd HF Hcol. induction Hnd as [|c cs Hc Hcs IH]; [constructor|].
  cbn [flat_map]. rewrite map_app. apply NoDup_app; [apply HF | exact IH |].
  intros p Hp Hq. apply in_map_iff in Hp. destruct Hp as [b [<- Hb]].
  apply in_map_iff in Hq. destruct Hq as [b' [E Hb']].
  apply in_flat_map in Hb'. destruct Hb' as [c' [Hc' Hb']].
  apply Hcol in Hb, Hb'. unfold cell in E. inversion E. congruence.
Qed.

Lemma clear_grid_ok (sel : list string) (g g' : Grid) :
  grid_ok g = true -> clearAndCompact sel g = Some g' -> grid_ok g' = true.
Proof.
  unfold grid_ok. rewrite !andb_true_iff. intros [[Hl Hu] Hv] E.
  destruct (clear_spec sel g Hl) as [g1 [E1 [Hp Hu']]].
  rewrite E in E1. inversion E1; subst g1. clear E1.
  set (rem := filter (unselected sel) (flat g)) in *.
  assert (forall b, In b (flat g') ->
            exists c, In c columns /\ In b (settleFrom 0 (colBlocks rem c))) as Hfrom.
  { intros b Hb. apply (Permutation_in _ Hp) in Hb.
    apply in_flat_map in Hb. exact Hb. }
  repeat split.
  - apply lattice_ok_spec. split.
    + intros b Hb. destruct (Hfrom b Hb) as [c [Hc Hs]].
      apply settled_In in Hs. destruct Hs as [Hcol [Hrow _]].
      pose proof (column_length g (unselected sel) c Hl) as Hlen. fold rem in Hlen.
      apply columns_spec in Hc. lia.
    + apply (Permutation_NoDup (Permutation_map cell (Permutation_sym Hp))).
      apply NoDup_cells_by_column; [apply columns_NoDup | |].
      * intros c. apply rows_cells_NoDup. apply settleFrom_rows_NoDup.
      * intros c b Hb. now apply settled_In in Hb.
  - exact Hu'.
  - apply values_ok_spec. intros b Hb. destruct (Hfrom b Hb) as [c [_ Hs]].
    apply settled_In in Hs. destruct Hs as [_ [_ [b0 [H0 Hc]]]].
    unfold rem in H0. apply filter_In in H0.
    unfold core in Hc. injection Hc as _ Hval _. rewrite Hval.
    now apply (proj1 (values_ok_spec g) Hv).
Qed.

(** ** generateTarget *)

Lemma extract_perm {A : Type} (k : nat) (l : list A) (x : A) (rest : list A) :
  extract k l = Some (x, rest) -> Permutation l (x :: rest).
Proof.
  revert k x rest. induction l as [|y t IH]; intros k x rest; simpl.
  - discriminate.
  - destruct k as [|k].
    + intros E. inversion E. reflexivity.
    + destruct (extract k t) as [[z t']|] eqn:E; [|discriminate].
      intros E'. inversion E'; subst. rewrite (IH k x t' E). apply perm_swap.
Qed.

Lemma shuffleN_perm (n : nat) (l : list Block) (r : Rand) :
  Permutation (fst (shuffleN n l r)) l.
Proof.
  revert l r. induction n as [|n IH]; intros l r; cbn [shuffleN].
  - reflexivity.
  - destruct (randomBelow (length l) r) as [k r1].
    destruct (extract k l) as [[x rest]|] eqn:E; [|reflexivity].
    specialize (IH rest r1). destruct (shuffleN n rest r1) as [tl r2].
    cbn [fst] in *. rewrite IH. symmetry. now apply extract_perm with (k := k).
Qed.

Lemma shuffle_perm (l : list Block) (r : Rand) :
  Permutation (fst (shuffle l r)) l.
Proof. apply shuffleN_perm. Qed.

Lemma generateTarget_empty (g : Grid) (r : Rand) :
  flat g = [] -> generateTarget g r = (10, r).
Proof. intros E. unfold generateTarget. now rewrite E. Qed.

(** On a grid that holds blocks, the target is the sum of the first
    [min count n] blocks of a rearrangement of the [n] blocks, with [count]
    one of 2, 3, 4. *)
Lemma generateTarget_sample (g : Grid) (r : Rand) :
  flat g <> [] ->
  exists count shuffled,
    (2 <= count <= 4)%nat /\ Permutation shuffled (flat g) /\
    fst (generateTarget g r) = sumValues (firstn count shuffled).
Proof.
  intros Hne. unfold generateTarget.
  destruct (flat g) as [|b t] eqn:E; [congruence|]. cbn [length Nat.eqb].
  pose proof (randomBelow_lt 3 r) as Hk.
  destruct (randomBelow 3 r) as [k r1]. cbn [fst] in Hk.
  pose proof (shuffle_perm (b :: t) r1) as Hp.
  destruct (shuffle (b :: t) r1) as [shuffled r2]. cbn [fst] in *.
  exists (k + 2)%nat, shuffled. repeat split; try lia. exact Hp.
Qed.

Lemma generateTarget_nonneg (g : Grid) (r : Rand) :
  values_ok g = true -> 0 <= fst (generateTarget g r).
Proof.
  intros Hv. destruct (flat g) as [|b t] eqn:E.
  - rewrite generateTarget_empty by exact E. simpl. lia.
  - destruct (generateTarget_sample g r) as [count [sh [_ [Hp ->]]]];
      [congruence|].
    apply sumValues_nonneg. apply Forall_forall. intros x Hx.
    assert (In x (flat g)) as Hin.
    { apply (Permutation_in _ Hp).
      rewrite <- (firstn_skipn count sh). apply in_or_app. now left. }
    pose proof (proj1 (values_ok_spec g) Hv x Hin). lia.
Qed.

(** ** The handlers *)

Lemma Some_eq {A : Type} (x y : A) : Some x = Some y -> x = y.
Proof. intros H. now injection H. Qed.

Lemma pair_eq {A B : Type} (x x' : A) (y y' : B) :
  (x, y) = (x', y') -> x = x' /\ y = y'.
Proof. intros H. injection H. auto. Qed.

Ltac fields :=
  cbn [mode grid target selectedIds score gameOver timeLeft isPaused combo
       fst snd] in *.

Lemma startGame_state (m : GameMode) (r : Rand) (st : GameState) :
  exists g t,
    fst (startGame m r st) = mkState (Some m) g t [] 0 false TIME_LIMIT false 1 /\
    grid_ok g = true /\ 0 <= t.
Proof.
  unfold startGame.
  pose proof (initialGrid_ok r) as Hg.
  destruct (createRows (Z.to_nat INITIAL_ROWS) (GRID_ROWS - INITIAL_ROWS) r)
    as [g r1].
  cbn [fst] in Hg.
  pose proof (generateTarget_nonneg g r1) as Ht.
  destruct (generateTarget g r1) as [t r2]. cbn [fst] in *.
  exists g, t. split; [reflexivity|]. split; [exact Hg|].
  apply Ht. unfold grid_ok in Hg. rewrite !andb_true_iff in Hg. tauto.
Qed.

(** The three outcomes of one run of the check-sum effect. *)
Lemma checkSum_cases (r : Rand) (st st' : GameState) (r' : Rand) :
  checkSum r st = Some (st', r') ->
  let selected := selectedBlocks (grid st) (selectedIds st) in
  (sumValues selected = target st /\ target st <> 0 /\
   exists g,
     clearAndCompact (selectedIds st) (grid st) = Some g /\
     (st', r') =
     match mode st with
     | Some classic =>
         addNewRow r
           (mkState (mode st) g (target st) []
                    (score st + target st * Z.of_nat (length selected) * combo st)
                    (gameOver st) (timeLeft st) (isPaused st) (combo st))
     | _ =>
         (mkState (mode st) g (target st) []
                  (score st + target st * Z.of_nat (length selected) * combo st)
                  (gameOver st) TIME_LIMIT (isPaused st)
                  (Z.min (combo st + 1) 5), r)
     end) \/
  (target st < sumValues selected /\
   (st', r') =
   (mkState (mode st) (grid st) (target st) [] (score st) (gameOver st)
            (timeLeft st) (isPaused st) 1, r)) \/
  (sumValues selected < target st \/ target st = 0 /\ sumValues selected = 0) /\
  (st', r') = (st, r).
Proof.
  unfold checkSum. intros E. cbv zeta.
  set (selected := selectedBlocks (grid st) (selectedIds st)) in *.
  destruct ((sumValues selected =? target st) && negb (target st =? 0)) eqn:C.
  - left. apply andb_true_iff in C. destruct C as [C1 C2].
    apply Z.eqb_eq in C1. apply negb_true_iff, Z.eqb_neq in C2.
    split; [exact C1|]. split; [exact C2|].
    destruct (clearAndCompact (selectedIds st) (grid st)) as [g|]; [|discriminate].
    exists g. split; [reflexivity|].
    destruct (mode st) as [[|]|]; now inversion E.
  - right. destruct (sumValues selected >? target st) eqn:C'.
    + left. split; [now apply Z.gtb_lt in C'|]. now inversion E.
    + right. split; [|now inversion E].
      apply andb_false_iff in C. rewrite Z.gtb_ltb in C'. apply Z.ltb_ge in C'.
      destruct C as [C|C].
      * apply Z.eqb_neq in C. left. lia.
      * apply negb_false_iff, Z.eqb_eq in C.
        destruct (Z.eq_dec (sumValues selected) 0); [right; tauto | left; lia].
Qed.

Lemma addNewRow_Inv (r : Rand) (st : GameState) :
  Inv st -> Inv (fst (addNewRow r st)).
Proof.
  intros [Hg [Hc [Ht Hm]]].
  pose proof (addNewRow_grid_ok r st Hg) as Hg'.
  destruct (addNewRow_frame r st) as [Em [Et [_ [_ [_ [_ Ec]]]]]].
  unfold Inv. rewrite Em, Et, Ec. tauto.
Qed.

Lemma transition_Inv (r : Rand) (e : Event) (st st' : GameState) :
  Inv st -> transition r e st = Some st' -> Inv st'.
Proof.
  intros HI E. pose proof HI as [Hg [Hc [Ht Hm]]].
  destruct e; cbn [transition] in E.
  - apply Some_eq in E; subst st'.
    destruct (startGame_state m r st) as [g [t [-> [Hg' Ht']]]].
    unfold Inv. fields. repeat split; auto; lia.
  - apply Some_eq in E; subst st'. unfold handleBlockClick.
    destruct (gameOver st || isPaused st); exact HI.
  - destruct (checkSum r st) as [[st1 r1]|] eqn:C; [|discriminate].
    cbn [option_map fst] in E. apply Some_eq in E; subst st1.
    apply checkSum_cases in C. cbv zeta in C.
    destruct C as [[_ [_ [g [Hclr C]]]]|[[_ C]|[_ C]]].
    + pose proof (clear_grid_ok _ _ _ Hg Hclr) as Hg'.
      destruct (mode st) as [[|]|] eqn:Em.
      * replace st' with (fst (st', r1)) by reflexivity. rewrite C.
        apply addNewRow_Inv. unfold Inv. fields. repeat split; auto; lia.
      * apply pair_eq in C; destruct C as [-> _]. unfold Inv. fields.
        repeat split; auto; try lia. discriminate.
      * apply pair_eq in C; destruct C as [-> _]. unfold Inv. fields.
        repeat split; auto; try lia. discriminate.
    + apply pair_eq in C; destruct C as [-> _]. unfold Inv. fields. repeat split; auto; lia.
    + apply pair_eq in C; destruct C as [-> _]. exact HI.
  - destruct (running st); [|discriminate]. apply Some_eq in E; subst st'.
    unfold tick. destruct (timeLeft st <=? 1).
    + apply addNewRow_Inv. unfold Inv. fields. repeat split; auto; lia.
    + exact HI.
  - apply Some_eq in E; subst st'. unfold newTarget.
    pose proof (generateTarget_nonneg (grid st) r) as Hn.
    destruct (generateTarget (grid st) r) as [t r1]. cbn [fst] in *.
    unfold Inv. fields. repeat split; auto; try lia.
    apply Hn. unfold grid_ok in Hg. rewrite !andb_true_iff in Hg. tauto.
  - apply Some_eq in E; subst st'. exact HI.
  - apply Some_eq in E; subst st'. exact HI.
  - apply Some_eq in E; subst st'. unfold Inv. fields. repeat split; auto; try lia.
    discriminate.
Qed.

Lemma initialState_Inv : Inv initialState.
Proof.
  unfold Inv, initialState. fields. repeat split; try lia; discriminate.
Qed.

Lemma run_Inv (trace : list (Rand * Event)) (st st' : GameState) :
  Inv st -> run trace st = Some st' -> Inv st'.
Proof.
  revert st. induction trace as [|[r e] rest IH]; intros st HI E; cbn [run] in E.
  - apply Some_eq in E. now subst.
  - destruct (transition r e st) as [st1|] eqn:T; [|discriminate].
    apply (IH st1); [|exact E]. now apply (transition_Inv r e st).
Qed.

Lemma reachable_Inv (st : GameState) : reachable st -> Inv st.
Proof.
  intros [trace E]. apply (run_Inv trace initialState); [apply initialState_Inv | exact E].
Qed.

(** The check-sum effect does not throw on a well-formed grid. *)
Lemma checkSum_total (r : Rand) (st : GameState) :
  lattice_ok (grid st) = true -> exists res, checkSum r st = Some res.
Proof.
  intros Hok. unfold checkSum.
  destruct (clear_spec (selectedIds st) (grid st) Hok) as [g [-> _]].
  destruct (_ && _); [destruct (mode st) as [[|]|]; eexists; reflexivity|].
  destruct (_ >? _); eexists; reflexivity.
Qed.

Lemma reachable_evaluates (r : Rand) (st : GameState) :
  reachable st -> exists st', transition r Evaluate st = Some st'.
Proof.
  intros H. apply reachable_Inv in H. destruct H as [Hg _].
  unfold grid_ok in Hg. rewrite !andb_true_iff in Hg.
  destruct (checkSum_total r st) as [[st' r'] E]; [tauto|].
  exists st'. cbn [transition]. now rewrite E.
Qed.

(** The success branch of the check-sum effect, on a well-formed grid. *)
Lemma checkSum_success (r : Rand) (st : GameState) :
  lattice_ok (grid st) = true ->
  sumValues (selectedBlocks (grid st) (selectedIds st)) = target st ->
  target st <> 0 ->
  let points :=
    target st * Z.of_nat (length (selectedBlocks (grid st) (selectedIds st)))
    * combo st in
  exists cleared st' r',
    checkSum r st = Some (st', r') /\
    clearAndCompact (selectedIds st) (grid st) = Some cleared /\
    Permutation (map core (flat cleared))
                (map core (filter (unselected (selectedIds st)) (flat (grid st)))) /\
    score st' = score st + points /\
    selectedIds st' = [] /\
    (st', r') =
    match mode st with
    | Some classic =>
        addNewRow r
          (mkState (mode st) cleared (target st) [] (score st + points)
                   (gameOver st) (timeLeft st) (isPaused st) (combo st))
    | _ =>
        (mkState (mode st) cleared (target st) [] (score st + points)
                 (gameOver st) TIME_LIMIT (isPaused st)
                 (Z.min (combo st + 1) 5), r)
    end.
Proof.
  intros Hok Hsum Hne points.
  destruct (clear_spec (selectedIds st) (grid st) Hok) as [cleared [Hclr _]].
  assert (checkSum r st =
          Some match mode st with
               | Some classic =>
                   addNewRow r
                     (mkState (mode st) cleared (target st) [] (score st + points)
                              (gameOver st) (timeLeft st) (isPaused st) (combo st))
               | _ =>
                   (mkState (mode st) cleared (target st) [] (score st + points)
                            (gameOver st) TIME_LIMIT (isPaused st)
                            (Z.min (combo st + 1) 5), r)
               end) as E.
  { unfold checkSum. rewrite Hsum, Z.eqb_refl.
    replace (target st =? 0) with false by (symmetry; now apply Z.eqb_neq).
    cbn [andb negb]. rewrite Hclr. subst points.
    now destruct (mode st) as [[|]|]. }
  set (res := match mode st with
              | Some classic => _
              | _ => _
              end) in *.
  exists cleared, (fst res), (snd res).
  rewrite <- surjective_pairing.
  split; [exact E|]. split; [exact Hclr|].
  split; [now apply clear_core|].
  assert (score (fst res) = score st + points /\ selectedIds (fst res) = []) as [Hs Hi].
  { unfold res. destruct (mode st) as [[|]|]; fields; try tauto.
    match goal with
    | |- context [addNewRow r ?s] =>
        destruct (addNewRow_frame r s) as [_ [_ [Hsel [Hsc _]]]]
    end.
    rewrite Hsel, Hsc. fields. tauto. }
  tauto.
Qed.

(** ** The model on the samples *)

Example startedState_shape :
  target startedState = 10 /\ length (flat (grid startedState)) = 28%nat /\
  map (map row) (grid startedState) =
  [repeat 6 7; repeat 7 7; repeat 8 7; repeat 9 7].
Proof. vm_compute. repeat split. Qed.

Example click_twice :
  handleBlockClick (mkBlock "0" 2 6 0)
    (handleBlockClick (mkBlock "0" 2 6 0) startedState) = startedState.
Proof. vm_compute. reflexivity. Qed.

Example classic_success_shape :
  score scoredState = 20 /\ selectedIds scoredState = [] /\
  gameOver scoredState = false /\
  length (flat (grid scoredState)) = 33%nat /\
  map (fun rw => length rw) (grid scoredState) = [5; 7; 7; 7; 7]%nat.
Proof. vm_compute. repeat split. Qed.

Example tower_overflows :
  fst (addNewRow sampleRand towerState) =
  mkState (Some classic) towerGrid 5 [] 0 true 10 false 1.
Proof. vm_compute. reflexivity. Qed.

Example eleven_in_a_column_throws :
  clearAndCompact [] ([mkBlock "u" 1 0 0] :: towerGrid) = None.
Proof. vm_compute. reflexivity. Qed.

(** * The specified properties *)

(** C1.  Success of the evaluation.  On a well-formed grid, when the values
    of the selected blocks sum to the target and the target is not 0, one
    run of the check-sum effect returns a state: its score is the old
    score plus [target * (number of selected blocks) * combo], its
    selection is empty, and the grid it is built from is the cleared grid,
    which holds exactly the blocks that were not selected, with their id,
    value and column.  In time mode the cleared grid is the new grid; in
    classic mode [addNewRow] then runs on it.  The effect reads neither
    [isPaused] nor [gameOver], so the statement holds in every state, the
    running ones included. *)
Theorem evaluation_success (r : Rand) (st : GameState) :
  lattice_ok (grid st) = true ->
  sumValues (selectedBlocks (grid st) (selectedIds st)) = target st ->
  target st <> 0 ->
  let points :=
    target st * Z.of_nat (length (selectedBlocks (grid st) (selectedIds st)))
    * combo st in
  exists cleared st' r',
    checkSum r st = Some (st', r') /\
    clearAndCompact (selectedIds st) (grid st) = Some cleared /\
    Permutation (map core (flat cleared))
                (map core (filter (unselected (selectedIds st)) (flat (grid st)))) /\
    score st' = score st + points /\
    selectedIds st' = [] /\
    (st', r') =
    match mode st with
    | Some classic =>
        addNewRow r
          (mkState (mode st) cleared (target st) [] (score st + points)
                   (gameOver st) (timeLeft st) (isPaused st) (combo st))
    | _ =>
        (mkState (mode st) cleared (target st) [] (score st + points)
                 (gameOver st) TIME_LIMIT (isPaused st)
                 (Z.min (combo st + 1) 5), r)
    end.
Proof. exact (checkSum_success r st). Qed.

(** Witness of C1: the blocks 3, 4 and 2 against the target 9, combo 2. *)
Lemma evaluation_success_witness :
  exists cleared st' r',
    checkSum sampleRand successState = Some (st', r') /\
    clearAndCompact (selectedIds successState) (grid successState) = Some cleared /\
    Permutation (map core (flat cleared))
                (map core (filter (unselected (selectedIds successState))
                                  (flat (grid successState)))) /\
    score st' = 0 + 9 * 3 * 2 /\
    selectedIds st' = [] /\
    (st', r') =
    (mkState (Some time) cleared 9 [] (0 + 9 * 3 * 2) false TIME_LIMIT false
             (Z.min (2 + 1) 5), sampleRand).
Proof.
  apply (evaluation_success sampleRand successState).
  - reflexivity.
  - reflexivity.
  - discriminate.
Defined.

(** C2.  Row insertion.  In a grid whose inner arrays each hold blocks of
    one row (the representation kept by every operation of the component,
    see [reachable_grid_ok]): if some block occupies row 0, [addNewRow]
    leaves the grid as it is and sets [gameOver]; if no block occupies
    row 0, every block keeps its id, value and column and has its row
    decremented by 1, and one new array is appended, made by [createBlock]
    of [GRID_COLS] blocks at row [GRID_ROWS - 1], one in each column, with
    values in [1, MAX_VALUE]; [gameOver] is not written. *)
Theorem addNewRow_spec (r : Rand) (st : GameState) :
  rows_uniform (grid st) = true ->
  ((exists b, In b (flat (grid st)) /\ row b = 0) ->
   grid (fst (addNewRow r st)) = grid st /\
   gameOver (fst (addNewRow r st)) = true) /\
  ((forall b, In b (flat (grid st)) -> row b <> 0) ->
   exists newRow,
     grid (fst (addNewRow r st)) =
     map (map (fun b => mkBlock (id b) (value b) (row b - 1) (col b))) (grid st)
     ++ [newRow] /\
     newRow = fst (createRow (GRID_ROWS - 1) (Z.to_nat GRID_COLS) 0 r) /\
     map cell newRow = map (fun c => (GRID_ROWS - 1, c)) columns /\
     Forall (fun b => 1 <= value b <= MAX_VALUE) newRow /\
     gameOver (fst (addNewRow r st)) = gameOver st).
Proof.
  intros Hu. split.
  - intros Hex. rewrite (addNewRow_full r st (topRow_complete _ Hu Hex)).
    split; reflexivity.
  - intros Hnone.
    assert (existsb topRow (grid st) = false) as E.
    { destruct (existsb topRow (grid st)) eqn:E; [|reflexivity].
      apply topRow_sound in E. destruct E as [b [Hb H0]].
      now destruct (Hnone b Hb). }
    rewrite (addNewRow_shift r st E). fields.
    exists (fst (createRow (GRID_ROWS - 1) (Z.to_nat GRID_COLS) 0 r)).
    split; [reflexivity|]. split; [reflexivity|].
    split; [apply newRow_cells|]. split; [apply createRow_values | reflexivity].
Qed.

(** Witness of C2: a column that reaches row 0. *)
Lemma addNewRow_spec_witness :
  rows_uniform (grid towerState) = true /\
  grid (fst (addNewRow sampleRand towerState)) = grid towerState /\
  gameOver (fst (addNewRow sampleRand towerState)) = true.
Proof.
  split; [reflexivity|].
  apply (proj1 (addNewRow_spec sampleRand towerState eq_refl)).
  exists (mkBlock "t" 1 0 0). split; [left; reflexivity | reflexivity].
Defined.

Lemma strictly_descending (l : list Block) :
  StronglySorted (fun x y => row y <= row x) l ->
  NoDup (map row l) ->
  StronglySorted (fun x y => row y < row x) l.
Proof.
  induction 1 as [|x t Ht IH Hx]; intros Hnd; [constructor|].
  cbn [map] in Hnd. apply NoDup_cons_iff in Hnd. destruct Hnd as [Hn Hnd].
  constructor; [now apply IH|].
  rewrite Forall_forall in *. intros y Hy.
  specialize (Hx y Hy).
  assert (row y <> row x) by (intros Heq; apply Hn; rewrite <- Heq; now apply in_map).
  lia.
Qed.

(** C3.  Clearing and gravity.  On a well-formed grid the clearing updater
    returns a grid.  It holds exactly the blocks whose id is not selected,
    with their id, value and column.  For each column, list the surviving
    blocks of the column bottom-most first ([survivors], strictly
    descending in their old rows): the column of the new grid consists of
    these blocks, the one at position [i] of the list at row
    [GRID_ROWS - 1 - i].  So the column is packed from the bottom and the
    vertical order of its blocks is kept.  In [gravityGrid], whose column 2
    holds blocks at rows 5, 7 and 9, clearing the block of row 7 leaves the
    block of row 5 at row 8 above the block of row 9. *)
Theorem clear_gravity (sel : list string) (g : Grid) :
  lattice_ok g = true ->
  exists g',
    clearAndCompact sel g = Some g' /\
    Permutation (map core (flat g'))
                (map core (filter (unselected sel) (flat g))) /\
    (forall c, 0 <= c < GRID_COLS ->
       exists survivors settled,
         Permutation survivors
                     (filter (inColumn c) (filter (unselected sel) (flat g))) /\
         StronglySorted (fun x y => row y < row x) survivors /\
         Permutation (filter (inColumn c) (flat g')) settled /\
         length settled = length survivors /\
         forall i b, nth_error survivors i = Some b ->
                     nth_error settled i =
                     Some (mkBlock (id b) (value b)
                                   (GRID_ROWS - 1 - Z.of_nat i) (col b))) /\
    clearAndCompact ["q"%string] gravityGrid =
    Some [[mkBlock "p" 3 8 2];
          [mkBlock "s" 2 9 2; mkBlock "x" 1 9 3]].
Proof.
  intros Hok. destruct (clear_spec sel g Hok) as [g' [E _]].
  exists g'. split; [exact E|]. split; [now apply clear_core|].
  split; [|reflexivity].
  intros c Hc. set (rem := filter (unselected sel) (flat g)).
  exists (colBlocks rem c), (settleFrom 0 (colBlocks rem c)).
  split; [apply colBlocks_perm|]. split; [|split; [|split]].
  - apply strictly_descending; [apply sortDesc_sorted|].
    apply (Permutation_NoDup
             (Permutation_map row (Permutation_sym (colBlocks_perm rem c)))).
    apply (column_rows_NoDup c).
    + intros b Hb. apply filter_In in Hb. now apply inColumn_spec.
    + apply lattice_ok_spec in Hok. unfold rem.
      now do 2 apply cells_filter_NoDup.
  - now apply clear_column.
  - apply settleFrom_length.
  - intros i b Hi. rewrite settleFrom_nth, Hi. cbn [option_map].
    f_equal; unfold withRow; f_equal; lia.
Qed.

(** Witness of C3: the grid of the gravity example. *)
Lemma clear_gravity_witness :
  lattice_ok gravityGrid = true /\
  exists g', clearAndCompact ["q"%string] gravityGrid = Some g' /\
             map cell (filter (inColumn 2) (flat g')) = [(8, 2); (9, 2)].
Proof.
  split; [reflexivity|].
  destruct (clear_gravity ["q"%string] gravityGrid eq_refl) as [g' [E _]].
  exists g'. split; [exact E|].
  vm_compute in E. apply Some_eq in E. rewrite <- E. reflexivity.
Defined.

(** C4.  Bust.  When the values of the selected blocks sum to more than the
    target, one run of the check-sum effect empties the selection and sets
    the combo to 1; the grid, the score and every other cell keep their
    values, and no random number is drawn. *)
Theorem evaluation_bust (r : Rand) (st : GameState) :
  target st < sumValues (selectedBlocks (grid st) (selectedIds st)) ->
  checkSum r st =
  Some (mkState (mode st) (grid st) (target st) [] (score st) (gameOver st)
                (timeLeft st) (isPaused st) 1, r).
Proof.
  intros H. unfold checkSum.
  replace (sumValues (selectedBlocks (grid st) (selectedIds st)) =? target st)
    with false by (symmetry; apply Z.eqb_neq; lia).
  cbn [andb].
  replace (sumValues (selectedBlocks (grid st) (selectedIds st)) >? target st)
    with true by (symmetry; apply Z.gtb_lt; lia).
  reflexivity.
Qed.

(** Witness of C4: the blocks 3 and 4 against the target 6. *)
Lemma evaluation_bust_witness :
  target bustState < sumValues (selectedBlocks (grid bustState) (selectedIds bustState)) /\
  checkSum sampleRand bustState =
  Some (mkState (Some time) bottomRow 6 [] 40 false 7 false 1, sampleRand).
Proof.
  split; [reflexivity|].
  apply (evaluation_bust sampleRand bustState). reflexivity.
Defined.

(** C5 as stated fails on a grid with a single block: the target is the
    value of that block, and no two blocks exist. *)
Lemma target_subset_counterexample :
  flat loneGrid <> [] /\
  fst (generateTarget loneGrid sampleRand) = 5 /\
  ~ sumOfBlocks 2 4 loneGrid (fst (generateTarget loneGrid sampleRand)).
Proof.
  split; [discriminate|]. split; [reflexivity|].
  intros [sub [rest [Hp [Hlen _]]]].
  apply Permutation_length in Hp. rewrite length_app in Hp.
  cbn in Hp. lia.
Qed.

(** C5, amended.  On a grid that holds [n >= 1] blocks, the target returned
    by [generateTarget] is the sum of the values of between [min 2 n] and 4
    blocks of the grid, each taken at most once: of between 2 and 4 blocks
    as soon as the grid holds two. *)
Theorem target_subset (g : Grid) (r : Rand) :
  flat g <> [] ->
  sumOfBlocks (Nat.min 2 (length (flat g))) 4 g (fst (generateTarget g r)).
Proof.
  intros Hne.
  destruct (generateTarget_sample g r Hne) as [count [sh [Hc [Hp ->]]]].
  exists (firstn count sh), (skipn count sh).
  rewrite firstn_skipn, length_firstn, <- (Permutation_length Hp).
  split; [exact Hp|]. split; [lia | reflexivity].
Qed.

(** Witness of C5: the four blocks of [bottomRow]. *)
Lemma target_subset_witness :
  flat bottomRow <> [] /\
  sumOfBlocks 2 4 bottomRow (fst (generateTarget bottomRow sampleRand)).
Proof.
  split; [discriminate|].
  apply (target_subset bottomRow sampleRand). discriminate.
Defined.

(** ** Selection *)

Lemma includes_spec (l : list string) (x : string) :
  includes l x = true <-> In x l.
Proof.
  unfold includes. rewrite existsb_exists. split.
  - intros [y [Hy E]]. apply String.eqb_eq in E. now subst.
  - intros H. exists x. split; [exact H | apply String.eqb_refl].
Qed.

Lemma toggle_In (sel : list string) (x y : string) :
  In y (toggle sel x) -> In y sel \/ y = x.
Proof.
  unfold toggle. destruct (includes sel x).
  - intros H. apply filter_In in H. tauto.
  - intros H. apply in_app_or in H. destruct H as [H|[H|[]]]; auto.
Qed.

Lemma toggle_other (sel : list string) (x y : string) :
  y <> x -> includes (toggle sel x) y = includes sel y.
Proof.
  intros Hne. apply eq_iff_eq_true. rewrite !includes_spec. unfold toggle.
  destruct (includes sel x).
  - rewrite filter_In. split; [tauto|]. intros H. split; [exact H|].
    apply negb_true_iff. now apply String.eqb_neq.
  - rewrite in_app_iff. simpl. split; [|tauto].
    intros [H|[H|[]]]; [exact H|]. now subst.
Qed.

Lemma addNewRow_ids (r : Rand) (st : GameState) :
  incl (idsOf (grid st)) (idsOf (grid (fst (addNewRow r st)))).
Proof.
  destruct (existsb topRow (grid st)) eqn:E.
  - rewrite (addNewRow_full r st E). apply incl_refl.
  - rewrite (addNewRow_shift r st E). fields. unfold idsOf.
    rewrite flat_app, flat_shiftUp, map_app, map_map.
    apply incl_appl. apply incl_refl.
Qed.

Lemma transition_selection (r : Rand) (e : Event) (st st' : GameState) :
  incl (selectedIds st) (idsOf (grid st)) ->
  match e with Click b => In b (flat (grid st)) | _ => True end ->
  transition r e st = Some st' ->
  incl (selectedIds st') (idsOf (grid st')).
Proof.
  intros HI Hc E. destruct e; cbn [transition] in E.
  - apply Some_eq in E; subst st'.
    destruct (startGame_state m r st) as [g [t [-> _]]]. fields.
    apply incl_nil_l.
  - apply Some_eq in E; subst st'. unfold handleBlockClick.
    destruct (gameOver st || isPaused st); [exact HI|]. fields.
    intros y Hy. apply toggle_In in Hy. destruct Hy as [Hy| ->].
    + now apply HI.
    + unfold idsOf. now apply in_map.
  - destruct (checkSum r st) as [[st1 r1]|] eqn:C; [|discriminate].
    cbn [option_map fst] in E. apply Some_eq in E; subst st1.
    apply checkSum_cases in C. cbv zeta in C.
    destruct C as [[_ [_ [g [_ C]]]]|[[_ C]|[_ C]]].
    + assert (selectedIds st' = []) as ->; [|apply incl_nil_l].
      destruct (mode st) as [[|]|].
      * replace st' with (fst (st', r1)) by reflexivity. rewrite C.
        match goal with
        | |- context [addNewRow r ?s] =>
            destruct (addNewRow_frame r s) as [_ [_ [Hsel _]]]
        end.
        exact Hsel.
      * apply pair_eq in C; destruct C as [-> _]. reflexivity.
      * apply pair_eq in C; destruct C as [-> _]. reflexivity.
    + apply pair_eq in C; destruct C as [-> _]. fields. apply incl_nil_l.
    + apply pair_eq in C; destruct C as [-> _]. exact HI.
  - destruct (running st); [|discriminate]. apply Some_eq in E; subst st'.
    unfold tick. destruct (timeLeft st <=? 1); [|exact HI].
    match goal with
    | |- context [addNewRow r ?s] =>
        destruct (addNewRow_frame r s) as [_ [_ [Hsel _]]];
        pose proof (addNewRow_ids r s) as Hids
    end.
    rewrite Hsel. fields. eapply incl_tran; [exact HI | exact Hids].
  - apply Some_eq in E; subst st'. unfold newTarget.
    destruct (generateTarget (grid st) r). exact HI.
  - apply Some_eq in E; subst st'. exact HI.
  - apply Some_eq in E; subst st'. exact HI.
  - apply Some_eq in E; subst st'. exact HI.
Qed.

Lemma run_selection (trace : list (Rand * Event)) (st st' : GameState) :
  incl (selectedIds st) (idsOf (grid st)) ->
  clicksPresent trace st ->
  run trace st = Some st' ->
  incl (selectedIds st') (idsOf (grid st')).
Proof.
  revert st. induction trace as [|[r e] rest IH]; intros st HI Hc E;
    cbn [run clicksPresent] in *.
  - apply Some_eq in E. now subst.
  - destruct Hc as [Hc Hrest].
    destruct (transition r e st) as [st1|] eqn:T; [|discriminate].
    apply (IH st1); [|exact Hrest|exact E].
    apply (transition_selection r e st); auto.
Qed.

(** C6 as stated fails: a click on a block that is not in the grid puts
    its id in the selection, in the state reached by [startGame] as in any
    state that is neither paused nor over, and the state so reached has a
    selected id that is the id of no block of the grid. *)
Lemma toggle_absent_counterexample :
  ~ In (id ghost) (idsOf (grid startedState)) /\
  handleBlockClick ghost startedState <> startedState /\
  reachable (handleBlockClick ghost startedState) /\
  ~ incl (selectedIds (handleBlockClick ghost startedState))
         (idsOf (grid (handleBlockClick ghost startedState))).
Proof.
  assert (~ In (id ghost) (idsOf (grid startedState))) as Habs.
  { vm_compute. intros H.
    repeat (destruct H as [H|H]; [discriminate H|]). exact H. }
  split; [exact Habs|]. split; [|split].
  - intros E. apply (f_equal selectedIds) in E. vm_compute in E. discriminate E.
  - exists [(sampleRand, Start classic); (sampleRand, Click ghost)]. reflexivity.
  - intros H. apply Habs.
    replace (idsOf (grid startedState))
      with (idsOf (grid (handleBlockClick ghost startedState)))
      by reflexivity.
    apply H. vm_compute. left. reflexivity.
Qed.

(** C6, amended.  A click on a block whose id is the id of no block of the
    grid writes [selectedIds] only: every other cell keeps its value, and
    so does the list of selected blocks that the check-sum effect and the
    display compute; when the game is neither over nor paused the id is
    toggled in [selectedIds] all the same.  In every state reached from the
    mounted component by a trace that clicks only blocks present in the
    grid, every selected id is the id of a block of the grid. *)
Theorem toggle_absent :
  (forall (b : Block) (st : GameState),
     ~ In (id b) (idsOf (grid st)) ->
     let st' := handleBlockClick b st in
     mode st' = mode st /\ grid st' = grid st /\ target st' = target st /\
     score st' = score st /\ gameOver st' = gameOver st /\
     timeLeft st' = timeLeft st /\ isPaused st' = isPaused st /\
     combo st' = combo st /\
     selectedBlocks (grid st') (selectedIds st') =
     selectedBlocks (grid st) (selectedIds st) /\
     (gameOver st = false -> isPaused st = false ->
      selectedIds st' = toggle (selectedIds st) (id b))) /\
  (forall (trace : list (Rand * Event)) (st : GameState),
     clicksPresent trace initialState ->
     run trace initialState = Some st ->
     incl (selectedIds st) (idsOf (grid st))).
Proof.
  split.
  - intros b st Habs. cbv zeta. unfold handleBlockClick.
    destruct (gameOver st) eqn:Eg; cbn [orb].
    + repeat split; auto; discriminate.
    + destruct (isPaused st) eqn:Ep.
      * repeat split; auto; discriminate.
      * fields. repeat split; auto.
        unfold selectedBlocks. apply filter_ext_in. intros x Hx.
        apply toggle_other. intros Heq. apply Habs. rewrite <- Heq.
        unfold idsOf. now apply in_map.
  - intros trace st Hc E.
    apply (run_selection trace initialState); auto.
    apply incl_nil_l.
Qed.

(** Witness of C6: the ghost block clicked on [bottomRow], and a trace
    that starts a game and clicks the block of row 6, column 0. *)
Lemma toggle_absent_witness :
  selectedBlocks (grid (handleBlockClick ghost successState))
                 (selectedIds (handleBlockClick ghost successState)) =
  selectedBlocks (grid successState) (selectedIds successState) /\
  exists st,
    run [(sampleRand, Start time);
         (sampleRand, Click (mkBlock "0" 2 6 0))] initialState = Some st /\
    incl (selectedIds st) (idsOf (grid st)).
Proof.
  split.
  - apply (proj1 toggle_absent ghost successState).
    vm_compute. intros H.
    repeat (destruct H as [H|H]; [discriminate H|]). exact H.
  - eexists. split; [reflexivity|].
    apply (proj2 toggle_absent
             [(sampleRand, Start time); (sampleRand, Click (mkBlock "0" 2 6 0))]).
    + split; [exact I|]. split; [|exact I]. vm_compute. left. reflexivity.
    + reflexivity.
Defined.

(** ** Combo, score and the timer *)

Lemma reachable_grid_ok (st : GameState) :
  reachable st -> grid_ok (grid st) = true.
Proof. intros H. now apply reachable_Inv in H as [Hg _]. Qed.

(** C7.  In every state reached from the mounted component by any trace
    of events (starts, clicks, runs of the check-sum effect, timer ticks,
    target timeouts, pause, resume, return to the menu) the combo lies
    between 1 and 5. *)
Theorem combo_bounds (st : GameState) :
  reachable st -> 1 <= combo st <= 5.
Proof. intros H. now apply reachable_Inv in H as [_ [Hc _]]. Qed.

(** Witness of C7: the state after a start. *)
Lemma combo_bounds_witness :
  reachable startedState /\ 1 <= combo startedState <= 5.
Proof.
  assert (reachable startedState) as H.
  { exists [(sampleRand, Start classic)]. reflexivity. }
  split; [exact H | exact (combo_bounds startedState H)].
Defined.

Lemma transition_score (r : Rand) (e : Event) (st st' : GameState) :
  Inv st ->
  match e with Start _ => False | _ => True end ->
  transition r e st = Some st' ->
  score st <= score st'.
Proof.
  intros [_ [Hc [Ht _]]] Hs E. destruct e; cbn [transition] in E.
  - destruct Hs.
  - apply Some_eq in E; subst st'. unfold handleBlockClick.
    destruct (gameOver st || isPaused st); fields; lia.
  - destruct (checkSum r st) as [[st1 r1]|] eqn:C; [|discriminate].
    cbn [option_map fst] in E. apply Some_eq in E; subst st1.
    apply checkSum_cases in C. cbv zeta in C.
    destruct C as [[_ [_ [g [_ C]]]]|[[_ C]|[_ C]]].
    + set (n := Z.of_nat (length (selectedBlocks (grid st) (selectedIds st)))) in *.
      assert (0 <= target st * n * combo st) as Hp.
      { apply Z.mul_nonneg_nonneg; [apply Z.mul_nonneg_nonneg|]; lia. }
      assert (score st' = score st + target st * n * combo st) as ->; [|lia].
      destruct (mode st) as [[|]|].
      * replace st' with (fst (st', r1)) by reflexivity. rewrite C.
        match goal with
        | |- context [addNewRow r ?s] =>
            destruct (addNewRow_frame r s) as [_ [_ [_ [Hsc _]]]]
        end.
        exact Hsc.
      * apply pair_eq in C; destruct C as [-> _]. reflexivity.
      * apply pair_eq in C; destruct C as [-> _]. reflexivity.
    + apply pair_eq in C; destruct C as [-> _]. fields. lia.
    + apply pair_eq in C; destruct C as [-> _]. lia.
  - destruct (running st); [|discriminate]. apply Some_eq in E; subst st'.
    unfold tick. destruct (timeLeft st <=? 1); [|fields; lia].
    match goal with
    | |- context [addNewRow r ?s] =>
        destruct (addNewRow_frame r s) as [_ [_ [_ [Hsc _]]]]
    end.
    rewrite Hsc. fields. lia.
  - apply Some_eq in E; subst st'. unfold newTarget.
    destruct (generateTarget (grid st) r). fields. lia.
  - apply Some_eq in E; subst st'. fields. lia.
  - apply Some_eq in E; subst st'. fields. lia.
  - apply Some_eq in E; subst st'. fields. lia.
Qed.

Lemma run_score (trace : list (Rand * Event)) (st st' : GameState) :
  Inv st -> withinRound trace = true -> run trace st = Some st' ->
  score st <= score st'.
Proof.
  revert st. induction trace as [|[r e] rest IH]; intros st HI Hw E;
    cbn [run withinRound forallb snd] in *.
  - apply Some_eq in E. subst. lia.
  - apply andb_true_iff in Hw. destruct Hw as [He Hw].
    destruct (transition r e st) as [st1|] eqn:T; [|discriminate].
    transitivity (score st1).
    + apply (transition_score r e st); [exact HI| |exact T].
      destruct e; [discriminate He | exact I ..].
    + apply IH; [|exact Hw|exact E]. now apply (transition_Inv r e st).
Qed.

(** C8.  From a reachable state, along any trace of events of one round
    (no [startGame] in it), the score does not decrease. *)
Theorem score_monotone (trace : list (Rand * Event)) (st st' : GameState) :
  reachable st -> withinRound trace = true -> run trace st = Some st' ->
  score st <= score st'.
Proof. intros H. apply run_score. now apply reachable_Inv. Qed.

(** Witness of C8: after a start with target 10, the blocks 2 and 8 of
    row 6 are clicked and the check-sum effect awards 20 points. *)
Lemma score_monotone_witness :
  run scoringTrace startedState = Some scoredState /\
  score scoredState = 20 /\
  score startedState <= score scoredState.
Proof.
  assert (run scoringTrace startedState = Some scoredState) as E
      by (vm_compute; reflexivity).
  split; [exact E|]. split; [reflexivity|].
  apply (score_monotone scoringTrace startedState scoredState).
  - exists [(sampleRand, Start classic)]. reflexivity.
  - reflexivity.
  - exact E.
Defined.

Lemma addNewRow_reads_grid (r : Rand) (s s' : GameState) :
  grid s = grid s' -> gameOver s = gameOver s' ->
  grid (fst (addNewRow r s)) = grid (fst (addNewRow r s')) /\
  gameOver (fst (addNewRow r s)) = gameOver (fst (addNewRow r s')).
Proof.
  intros Eg Eo. destruct (existsb topRow (grid s)) eqn:E.
  - rewrite (addNewRow_full r s E). rewrite Eg in E.
    rewrite (addNewRow_full r s' E). fields. auto.
  - rewrite (addNewRow_shift r s E). rewrite Eg in E.
    rewrite (addNewRow_shift r s' E). fields. rewrite Eg. auto.
Qed.

(** C9.  The timer.  While the game runs in time mode, the tick that
    finds [timeLeft] at 1 or below, the countdown reaching zero, runs
    [addNewRow] (the grid and [gameOver] become what [addNewRow] makes of
    them, overflow check included), sets the combo to 1 and [timeLeft] to
    [TIME_LIMIT], and writes nothing else; every other tick decrements
    [timeLeft] by 1 and writes nothing else. *)
Theorem timer_tick (r : Rand) (st : GameState) :
  running st = true ->
  (timeLeft st <= 1 ->
   exists st',
     transition r Tick st = Some st' /\
     grid st' = grid (fst (addNewRow r st)) /\
     gameOver st' = gameOver (fst (addNewRow r st)) /\
     combo st' = 1 /\ timeLeft st' = TIME_LIMIT /\
     mode st' = mode st /\ target st' = target st /\
     selectedIds st' = selectedIds st /\ score st' = score st /\
     isPaused st' = isPaused st) /\
  (1 < timeLeft st ->
   transition r Tick st =
   Some (mkState (mode st) (grid st) (target st) (selectedIds st) (score st)
                 (gameOver st) (timeLeft st - 1) (isPaused st) (combo st))).
Proof.
  intros Hrun. cbn [transition]. rewrite Hrun. unfold tick. split.
  - intros Hle. replace (timeLeft st <=? 1) with true
      by (symmetry; now apply Z.leb_le).
    eexists. split; [reflexivity|].
    match goal with
    | |- context [addNewRow r ?s] =>
        destruct (addNewRow_frame r s) as [Hm [Ht [Hsel [Hsc [Htl [Hp Hc]]]]]];
        destruct (addNewRow_reads_grid r s st eq_refl eq_refl) as [Hg Ho]
    end.
    rewrite Hg, Ho, Hm, Ht, Hsel, Hsc, Htl, Hp, Hc. fields. tauto.
  - intros Hgt. replace (timeLeft st <=? 1) with false
      by (symmetry; apply Z.leb_gt; lia).
    reflexivity.
Qed.

(** Witness of C9: the bust state of the samples runs in time mode with
    seven seconds left. *)
Lemma timer_tick_witness :
  running bustState = true /\
  transition sampleRand Tick bustState =
  Some (mkState (Some time) bottomRow 6 ["a"; "b"]%string 40 false 6 false 3).
Proof.
  split; [reflexivity|].
  apply (proj2 (timer_tick sampleRand bustState eq_refl)). reflexivity.
Defined.

(** C10.  Classic mode.  In every reachable state whose mode is classic
    the combo is 1, and a success of the check-sum effect in such a state
    returns a state whose score is the old score plus
    [target * (number of selected blocks)]. *)
Theorem classic_combo (st : GameState) :
  reachable st -> mode st = Some classic ->
  combo st = 1 /\
  forall r : Rand,
    sumValues (selectedBlocks (grid st) (selectedIds st)) = target st ->
    target st <> 0 ->
    exists st' r',
      checkSum r st = Some (st', r') /\
      score st' =
      score st
      + target st * Z.of_nat (length (selectedBlocks (grid st) (selectedIds st))).
Proof.
  intros Hr Hm. apply reachable_Inv in Hr. destruct Hr as [Hg [_ [_ Hc]]].
  specialize (Hc Hm). split; [exact Hc|].
  intros r Hsum Hne.
  assert (lattice_ok (grid st) = true) as Hl.
  { unfold grid_ok in Hg. rewrite !andb_true_iff in Hg. tauto. }
  destruct (checkSum_success r st Hl Hsum Hne)
    as [cleared [st' [r' [E [_ [_ [Hs _]]]]]]].
  exists st', r'. split; [exact E|]. rewrite Hs, Hc. lia.
Qed.

(** Witness of C10: after a classic start, the blocks 2 and 8 are selected
    against the target 10; the success awards 10 * 2 points. *)
Lemma classic_combo_witness :
  reachable selectedState /\ mode selectedState = Some classic /\
  combo selectedState = 1 /\
  exists st' r',
    checkSum sampleRand selectedState = Some (st', r') /\
    score st' = score selectedState + 10 * 2.
Proof.
  assert (reachable selectedState) as H.
  { exists ((sampleRand, Start classic) :: firstn 2 scoringTrace).
    vm_compute. reflexivity. }
  destruct (classic_combo selectedState H eq_refl) as [Hc Hs].
  split; [exact H|]. split; [reflexivity|]. split; [exact Hc|].
  apply (Hs sampleRand); [vm_compute; reflexivity | discriminate].
Defined.

(** * Further properties of the code *)

(** ** Targets and the start of a game *)

Lemma sumValues_bounds (l : list Block) :
  Forall (fun b => 1 <= value b <= MAX_VALUE) l ->
  Z.of_nat (length l) <= sumValues l <= MAX_VALUE * Z.of_nat (length l).
Proof.
  induction 1 as [|b t Hb _ IH].
  - change (sumValues []) with 0. cbn [length]. lia.
  - rewrite sumValues_cons. cbn [length]. rewrite Nat2Z.inj_succ. lia.
Qed.

Lemma generateTarget_range (g : Grid) (r : Rand) :
  values_ok g = true -> flat g <> [] ->
  Z.of_nat (Nat.min 2 (length (flat g))) <= fst (generateTarget g r)
  <= 4 * MAX_VALUE.
Proof.
  intros Hv Hne.
  destruct (generateTarget_sample g r Hne) as [count [sh [Hc [Hp ->]]]].
  assert (Forall (fun b => 1 <= value b <= MAX_VALUE) (firstn count sh)) as HF.
  { apply Forall_forall. intros x Hx. apply (proj1 (values_ok_spec g) Hv).
    apply (Permutation_in _ Hp). rewrite <- (firstn_skipn count sh).
    apply in_or_app. now left. }
  apply sumValues_bounds in HF.
  rewrite length_firstn, (Permutation_length Hp) in HF.
  unfold MAX_VALUE in *. lia.
Qed.

(** X1.  The target generator on a grid whose block values lie in
    [1, MAX_VALUE].  On a grid without blocks it returns 10 and draws no
    random number.  On a grid of [n >= 1] blocks it returns a number
    between [min 2 n] and [4 * MAX_VALUE]: at least 2 and at most 36 as
    soon as the grid holds two blocks. *)
Theorem generateTarget_bounds (g : Grid) (r : Rand) :
  values_ok g = true ->
  (flat g = [] -> generateTarget g r = (10, r)) /\
  (flat g <> [] ->
   Z.of_nat (Nat.min 2 (length (flat g))) <= fst (generateTarget g r)
   <= 4 * MAX_VALUE).
Proof.
  intros Hv. split.
  - apply generateTarget_empty.
  - now apply generateTarget_range.
Qed.

(** Witness of X1: the four blocks of [bottomRow]. *)
Lemma generateTarget_bounds_witness :
  values_ok bottomRow = true /\
  2 <= fst (generateTarget bottomRow sampleRand) <= 36.
Proof.
  split; [reflexivity|].
  apply (proj2 (generateTarget_bounds bottomRow sampleRand eq_refl)).
  discriminate.
Defined.

Lemma cells_of_flat (g : Grid) :
  map cell (flat g) = concat (map (map cell) g).
Proof. unfold flat. apply concat_map. Qed.

(** The state made by [startGame]. *)
Lemma startGame_shape (m : GameMode) (r : Rand) (st : GameState) :
  let st' := fst (startGame m r st) in
  mode st' = Some m /\ score st' = 0 /\ combo st' = 1 /\
  timeLeft st' = TIME_LIMIT /\ selectedIds st' = [] /\
  gameOver st' = false /\ isPaused st' = false /\
  map (map cell) (grid st') =
  map (fun rw => map (fun c => (rw, c)) columns) [6; 7; 8; 9] /\
  (forall b, In b (flat (grid st')) -> 1 <= value b <= MAX_VALUE) /\
  2 <= target st' <= 4 * MAX_VALUE.
Proof.
  cbv zeta. unfold startGame.
  pose proof (createRows_cells (Z.to_nat INITIAL_ROWS) (GRID_ROWS - INITIAL_ROWS) r)
    as Hcells.
  pose proof (createRows_values (Z.to_nat INITIAL_ROWS) (GRID_ROWS - INITIAL_ROWS) r)
    as Hvals.
  destruct (createRows (Z.to_nat INITIAL_ROWS) (GRID_ROWS - INITIAL_ROWS) r)
    as [g r1].
  cbn [fst] in Hcells, Hvals.
  assert (values_ok g = true) as Hv.
  { apply values_ok_spec. now apply Forall_forall. }
  assert (length (flat g) = 28%nat) as Hlen.
  { rewrite <- (length_map cell), cells_of_flat, Hcells. reflexivity. }
  pose proof (generateTarget_range g r1 Hv) as Ht.
  destruct (generateTarget g r1) as [t r2]. fields.
  repeat split; try reflexivity.
  - rewrite Hcells. reflexivity.
  - now apply (proj1 (values_ok_spec g) Hv).
  - now apply (proj1 (values_ok_spec g) Hv).
  - rewrite Hlen in Ht. cbn [Nat.min Z.of_nat] in Ht.
    assert (flat g <> []) as Hne by (intros E; rewrite E in Hlen; discriminate).
    specialize (Ht Hne). cbn in Ht. lia.
  - assert (flat g <> []) as Hne by (intros E; rewrite E in Hlen; discriminate).
    specialize (Ht Hne). lia.
Qed.

(** X2.  [startGame] resets the component whatever its state was: in any
    state and for any random draws, the result has the chosen mode, score
    0, combo 1, [TIME_LIMIT] seconds, an empty selection, neither
    [gameOver] nor [isPaused]; its grid has one block in every cell of the
    rows [GRID_ROWS - INITIAL_ROWS] to [GRID_ROWS - 1], one inner array for
    each row, with values in [1, MAX_VALUE]; and its target lies between 2
    and [4 * MAX_VALUE]. *)
Theorem startGame_resets (m : GameMode) (r : Rand) (st : GameState) :
  let st' := fst (startGame m r st) in
  mode st' = Some m /\ score st' = 0 /\ combo st' = 1 /\
  timeLeft st' = TIME_LIMIT /\ selectedIds st' = [] /\
  gameOver st' = false /\ isPaused st' = false /\
  map (map cell) (grid st') =
  map (fun rw => map (fun c => (rw, c)) columns) [6; 7; 8; 9] /\
  (forall b, In b (flat (grid st')) -> 1 <= value b <= MAX_VALUE) /\
  2 <= target st' <= 4 * MAX_VALUE.
Proof. exact (startGame_shape m r st). Qed.

(** ** Gravity *)

Lemma compact_spec (g : Grid) :
  compact g = true <->
  forall b, In b (flat g) ->
    row b = GRID_ROWS - 1 \/
    exists b', In b' (flat g) /\ cell b' = (row b + 1, col b).
Proof.
  unfold compact, supported. rewrite forallb_forall. split.
  - intros H b Hb. specialize (H (cell b) (in_map cell _ _ Hb)).
    apply orb_true_iff in H. destruct H as [H|H].
    + left. now apply Z.eqb_eq in H.
    + right. apply existsb_exists in H. destruct H as [p [Hp E]].
      apply cellEqb_eq in E. apply in_map_iff in Hp.
      destruct Hp as [b' [Hc Hb']]. exists b'. split; [exact Hb'|].
      rewrite Hc. now subst p.
  - intros H p Hp. apply in_map_iff in Hp. destruct Hp as [b [<- Hb]].
    apply orb_true_iff. destruct (H b Hb) as [E|[b' [Hb' E]]].
    + left. now apply Z.eqb_eq.
    + right. apply existsb_exists. exists (cell b'). split.
      * now apply in_map.
      * apply cellEqb_eq. now rewrite E.
Qed.

(** The cells of a settled column: rows [GRID_ROWS - 1], [GRID_ROWS - 2],
    ... without a gap. *)
Lemma settled_supported (l : list Block) (b : Block) :
  In b (settleFrom 0 l) ->
  row b = GRID_ROWS - 1 \/
  exists b', In b' (settleFrom 0 l) /\ row b' = row b + 1 /\
             exists x y, In x l /\ In y l /\ col b = col x /\ col b' = col y.
Proof.
  intros Hb. apply In_nth_error in Hb. destruct Hb as [i Hi].
  rewrite settleFrom_nth in Hi.
  destruct (nth_error l i) as [x|] eqn:Ex; [|discriminate].
  cbn [option_map] in Hi. apply Some_eq in Hi. subst b. cbn [row withRow col].
  destruct i as [|i].
  - left. cbn [Z.of_nat]. lia.
  - right.
    assert (i < length l)%nat as Hlt.
    { apply Nat.lt_succ_l. apply nth_error_Some. congruence. }
    destruct (nth_error l i) as [y|] eqn:Ey;
      [|apply nth_error_None in Ey; lia].
    exists (withRow y (GRID_ROWS - 1 - (0 + Z.of_nat i))). split; [|split].
    + apply (nth_error_In _ i). rewrite settleFrom_nth, Ey. reflexivity.
    + cbn [row withRow]. lia.
    + exists x, y. repeat split.
      * now apply (nth_error_In _ (S i)).
      * now apply (nth_error_In _ i).
Qed.

Lemma clear_compact (sel : list string) (g g' : Grid) :
  lattice_ok g = true -> clearAndCompact sel g = Some g' -> compact g' = true.
Proof.
  intros Hok E. destruct (clear_spec sel g Hok) as [g1 [E1 [Hp _]]].
  rewrite E in E1. apply Some_eq in E1. subst g1.
  apply compact_spec. intros b Hb.
  apply (Permutation_in _ Hp) in Hb. apply in_flat_map in Hb.
  destruct Hb as [c [Hc Hb]].
  destruct (settled_supported _ b Hb) as [H9|[b' [Hb' [Hr [x [y [Hx [Hy [Ex Ey]]]]]]]]].
  - now left.
  - right. exists b'. split.
    + apply (Permutation_in _ (Permutation_sym Hp)). apply in_flat_map.
      exists c. split; [exact Hc | exact Hb'].
    + apply colBlocks_In in Hx, Hy. unfold cell. f_equal; [exact Hr|].
      destruct Hx as [_ Hx]. destruct Hy as [_ Hy]. congruence.
Qed.

Lemma clear_lattice_ok (sel : list string) (g g' : Grid) :
  lattice_ok g = true -> clearAndCompact sel g = Some g' -> lattice_ok g' = true.
Proof.
  intros Hl E. destruct (clear_spec sel g Hl) as [g1 [E1 [Hp _]]].
  rewrite E in E1. apply Some_eq in E1. subst g1.
  set (rem := filter (unselected sel) (flat g)) in *.
  apply lattice_ok_spec. split.
  - intros b Hb. apply (Permutation_in _ Hp) in Hb.
    apply in_flat_map in Hb. destruct Hb as [c [Hc Hs]].
    apply settled_In in Hs. destruct Hs as [Hcol [Hrow _]].
    pose proof (column_length g (unselected sel) c Hl) as Hlen. fold rem in Hlen.
    apply columns_spec in Hc. lia.
  - apply (Permutation_NoDup (Permutation_map cell (Permutation_sym Hp))).
    apply NoDup_cells_by_column; [apply columns_NoDup | |].
    + intros c. apply rows_cells_NoDup. apply settleFrom_rows_NoDup.
    + intros c b Hb. now apply settled_In in Hb.
Qed.

(** X3.  The clearing updater keeps the grid well formed.  On a grid with
    at most one block per cell of the lattice, for any selection, it
    returns a grid that again has at most one block per cell of the
    lattice, whose inner arrays each hold one row, whose columns have no
    gap (every block above the bottom row stands on a block), that holds
    as many blocks as were not selected, and none whose id is selected. *)
Theorem clear_wellformed (sel : list string) (g : Grid) :
  lattice_ok g = true ->
  exists g',
    clearAndCompact sel g = Some g' /\
    lattice_ok g' = true /\ rows_uniform g' = true /\ compact g' = true /\
    length (flat g') = length (filter (unselected sel) (flat g)) /\
    forall b, In b (flat g') -> includes sel (id b) = false.
Proof.
  intros Hok. destruct (clear_spec sel g Hok) as [g' [E [_ Hu]]].
  exists g'. split; [exact E|].
  split; [now apply (clear_lattice_ok sel g)|]. split; [exact Hu|].
  split; [now apply (clear_compact sel g)|].
  pose proof (clear_core sel g g' Hok E) as Hc. split.
  - apply Permutation_length in Hc. now rewrite !length_map in Hc.
  - intros b Hb.
    assert (In (core b) (map core (filter (unselected sel) (flat g)))) as Hin.
    { apply (Permutation_in _ Hc). now apply in_map. }
    apply in_map_iff in Hin. destruct Hin as [b0 [E0 H0]].
    apply filter_In in H0. destruct H0 as [_ H0].
    unfold unselected in H0. apply negb_true_iff in H0.
    unfold core in E0. injection E0 as Eid _ _. now rewrite <- Eid.
Qed.

(** Witness of X3: the grid of the gravity example, [q] selected. *)
Lemma clear_wellformed_witness :
  lattice_ok gravityGrid = true /\
  exists g',
    clearAndCompact ["q"%string] gravityGrid = Some g' /\
    lattice_ok g' = true /\ compact g' = true /\ length (flat g') = 3%nat.
Proof.
  split; [reflexivity|].
  destruct (clear_wellformed ["q"%string] gravityGrid eq_refl)
    as [g' [E [Hl [_ [Hc [Hlen _]]]]]].
  exists g'. repeat split; assumption.
Defined.

Lemma settle_not_above (l : list Block) (k : Z) :
  StronglySorted (fun x y => row y < row x) l ->
  (forall b, In b l -> row b <= GRID_ROWS - 1 - k) ->
  Forall2 (fun old new => core new = core old /\ row old <= row new)
          l (settleFrom k l).
Proof.
  intros Hs. revert k. induction Hs as [|x t Ht IH Hx]; intros k Hb.
  - constructor.
  - cbn [settleFrom]. constructor.
    + split; [reflexivity|]. cbn [row withRow]. apply Hb. now left.
    + apply IH. intros b Hin. rewrite Forall_forall in Hx.
      specialize (Hx b Hin). specialize (Hb x (or_introl eq_refl)). lia.
Qed.

(** X4.  Gravity moves no block up.  On a grid with at most one block per
    cell of the lattice, pair the surviving blocks of a column, bottom-most
    first, with the blocks of that column in the cleared grid: each block
    keeps its id, value and column, and its new row is its old row or a
    row below it. *)
Theorem gravity_moves_down (sel : list string) (g : Grid) :
  lattice_ok g = true ->
  exists g',
    clearAndCompact sel g = Some g' /\
    forall c, 0 <= c < GRID_COLS ->
      exists survivors settled,
        Permutation survivors
                    (filter (inColumn c) (filter (unselected sel) (flat g))) /\
        Permutation settled (filter (inColumn c) (flat g')) /\
        Forall2 (fun old new => core new = core old /\ row old <= row new)
                survivors settled.
Proof.
  intros Hok. destruct (clear_spec sel g Hok) as [g' [E _]].
  exists g'. split; [exact E|]. intros c Hc.
  set (rem := filter (unselected sel) (flat g)).
  exists (colBlocks rem c), (settleFrom 0 (colBlocks rem c)).
  split; [apply colBlocks_perm|].
  split; [symmetry; now apply clear_column|].
  apply settle_not_above.
  - apply strictly_descending; [apply sortDesc_sorted|].
    apply (Permutation_NoDup
             (Permutation_map row (Permutation_sym (colBlocks_perm rem c)))).
    apply (column_rows_NoDup c).
    + intros b Hb. apply filter_In in Hb. now apply inColumn_spec.
    + apply lattice_ok_spec in Hok. unfold rem.
      now do 2 apply cells_filter_NoDup.
  - intros b Hb. apply colBlocks_In in Hb. destruct Hb as [Hb _].
    unfold rem in Hb. apply filter_In in Hb. destruct Hb as [Hb _].
    apply lattice_ok_spec in Hok. destruct Hok as [Hin _].
    specialize (Hin b Hb). lia.
Qed.

(** Witness of X4: the grid of the gravity example. *)
Lemma gravity_moves_down_witness :
  lattice_ok gravityGrid = true /\
  exists g', clearAndCompact ["q"%string] gravityGrid = Some g'.
Proof.
  split; [reflexivity|].
  destruct (gravity_moves_down ["q"%string] gravityGrid eq_refl) as [g' [E _]].
  exists g'. exact E.
Defined.

(** ** Row insertion *)

Lemma newRow_covers (r : Rand) (c : Z) :
  0 <= c < GRID_COLS ->
  exists b, In b (fst (createRow (GRID_ROWS - 1) (Z.to_nat GRID_COLS) 0 r)) /\
            cell b = (GRID_ROWS - 1, c).
Proof.
  intros Hc.
  assert (In (GRID_ROWS - 1, c)
             (map cell (fst (createRow (GRID_ROWS - 1) (Z.to_nat GRID_COLS) 0 r))))
    as Hin.
  { rewrite newRow_cells. unfold GRID_ROWS, GRID_COLS in *.
    change (10 - 1) with 9.
    assert (c = 0 \/ c = 1 \/ c = 2 \/ c = 3 \/ c = 4 \/ c = 5 \/ c = 6) as Hd by lia.
    cbn [In]. intuition (subst; auto). }
  apply in_map_iff in Hin. destruct Hin as [b [E Hb]]. now exists b.
Qed.

Lemma addNewRow_compact (r : Rand) (st : GameState) :
  lattice_ok (grid st) = true -> compact (grid st) = true ->
  compact (grid (fst (addNewRow r st))) = true.
Proof.
  intros Hl Hc. destruct (existsb topRow (grid st)) eqn:E.
  - now rewrite (addNewRow_full r st E).
  - rewrite (addNewRow_shift r st E). cbn [fst grid].
    apply lattice_ok_spec in Hl. destruct Hl as [Hin _].
    set (nr := fst (createRow (GRID_ROWS - 1) (Z.to_nat GRID_COLS) 0 r)).
    assert (flat (shiftUp (grid st) ++ [nr]) =
            map (fun b => withRow b (row b - 1)) (flat (grid st)) ++ nr) as Hflat.
    { rewrite flat_app, flat_shiftUp. f_equal; apply app_nil_r. }
    apply compact_spec. rewrite Hflat. intros b Hb.
    apply in_app_or in Hb. destruct Hb as [Hb|Hb].
    + right. apply in_map_iff in Hb. destruct Hb as [b0 [<- Hb0]].
      cbn [row col withRow].
      destruct (proj1 (compact_spec (grid st)) Hc b0 Hb0) as [H9|[b1 [Hb1 E1]]].
      * destruct (newRow_covers r (col b0)) as [n [Hn En]];
          [now apply Hin|].
        exists n. split; [apply in_or_app; now right|].
        rewrite En. f_equal. lia.
      * exists (withRow b1 (row b1 - 1)). split.
        -- apply in_or_app. left.
           now apply (in_map (fun b => withRow b (row b - 1))).
        -- unfold cell in *. cbn [row col withRow].
           injection E1 as Er Ec. f_equal; lia.
    + left. now apply newRow_In in Hb.
Qed.

(** X5.  Row insertion keeps the grid well formed.  On a grid that is well
    formed (one block per cell of the lattice at most, one row per inner
    array, values in [1, MAX_VALUE]) and has no gaps, [addNewRow] returns
    a grid that is well formed and has no gaps.  When the overflow test
    fires the number of blocks is unchanged, otherwise it grows by
    [GRID_COLS]; in both cases every id of the old grid is an id of the
    new one. *)
Theorem addNewRow_wellformed (r : Rand) (st : GameState) :
  grid_ok (grid st) = true -> compact (grid st) = true ->
  let st' := fst (addNewRow r st) in
  grid_ok (grid st') = true /\ compact (grid st') = true /\
  Z.of_nat (length (flat (grid st'))) =
  Z.of_nat (length (flat (grid st)))
  + (if existsb topRow (grid st) then 0 else GRID_COLS) /\
  incl (idsOf (grid st)) (idsOf (grid st')).
Proof.
  intros Hok Hc. cbv zeta.
  split; [now apply addNewRow_grid_ok|]. split.
  { apply addNewRow_compact; [|exact Hc].
    unfold grid_ok in Hok. rewrite !andb_true_iff in Hok. tauto. }
  split; [|apply addNewRow_ids].
  destruct (existsb topRow (grid st)) eqn:E.
  - rewrite (addNewRow_full r st E). cbn [fst grid]. lia.
  - rewrite (addNewRow_shift r st E). cbn [fst grid].
    rewrite flat_app, flat_shiftUp, length_app, length_map.
    replace (flat [fst (createRow (GRID_ROWS - 1) (Z.to_nat GRID_COLS) 0 r)])
      with (fst (createRow (GRID_ROWS - 1) (Z.to_nat GRID_COLS) 0 r))
      by (symmetry; apply app_nil_r).
    rewrite <- (length_map cell (fst _)), newRow_cells.
    cbn [length]. unfold GRID_COLS. lia.
Qed.

(** Witness of X5: the grid after a start. *)
Lemma addNewRow_wellformed_witness :
  grid_ok (grid startedState) = true /\ compact (grid startedState) = true /\
  grid_ok (grid (fst (addNewRow sampleRand startedState))) = true /\
  compact (grid (fst (addNewRow sampleRand startedState))) = true.
Proof.
  assert (grid_ok (grid startedState) = true) as H1 by (vm_compute; reflexivity).
  assert (compact (grid startedState) = true) as H2 by (vm_compute; reflexivity).
  split; [exact H1|]. split; [exact H2|].
  destruct (addNewRow_wellformed sampleRand startedState H1 H2) as [Hg [Hc _]].
  split; [exact Hg | exact Hc].
Defined.

(** ** Invariants of the running component *)

Lemma toggle_NoDup (sel : list string) (x : string) :
  NoDup sel -> NoDup (toggle sel x).
Proof.
  intros H. unfold toggle. destruct (includes sel x) eqn:E.
  - now apply NoDup_filter.
  - apply NoDup_app; [exact H | repeat constructor; intros [] |].
    intros y Hy [<-|[]].
    apply includes_spec in Hy. congruence.
Qed.

Lemma compact_cells (g h : Grid) :
  map (map cell) g = map (map cell) h -> compact g = compact h.
Proof. intros E. unfold compact. now rewrite !cells_of_flat, E. Qed.

Lemma startGame_compact (m : GameMode) (r : Rand) (st : GameState) :
  compact (grid (fst (startGame m r st))) = true.
Proof.
  destruct (startGame_shape m r st) as [_ [_ [_ [_ [_ [_ [_ [Hcells _]]]]]]]].
  rewrite (compact_cells _
             (map (map (fun p : Z * Z => mkBlock EmptyString 1 (fst p) (snd p)))
                  (map (fun rw => map (fun c => (rw, c)) columns) [6; 7; 8; 9]))).
  - vm_compute. reflexivity.
  - rewrite Hcells. vm_compute. reflexivity.
Qed.

Lemma grid_ok_parts (g : Grid) :
  grid_ok g = true ->
  lattice_ok g = true /\ rows_uniform g = true /\ values_ok g = true.
Proof. unfold grid_ok. rewrite !andb_true_iff. tauto. Qed.

Lemma newTarget_range (g : Grid) (r : Rand) :
  values_ok g = true -> 1 <= fst (generateTarget g r) <= 4 * MAX_VALUE.
Proof.
  intros Hv. destruct (flat g) as [|b t] eqn:E.
  - rewrite (generateTarget_empty g r E). cbn [fst]. unfold MAX_VALUE. lia.
  - assert (flat g <> []) as Hne by congruence.
    pose proof (generateTarget_range g r Hv Hne) as H.
    rewrite E in H. cbn [length] in H.
    destruct (length t); cbn [Nat.min Z.of_nat] in H; lia.
Qed.

Lemma transition_Inv2 (r : Rand) (e : Event) (st st' : GameState) :
  Inv st -> Inv2 st -> transition r e st = Some st' -> Inv2 st'.
Proof.
  intros [Hg _] HI E. pose proof HI as [Hc [Ht [Hs Hr]]].
  destruct (grid_ok_parts _ Hg) as [Hl [_ Hv]].
  destruct e; cbn [transition] in E.
  - apply Some_eq in E; subst st'.
    pose proof (startGame_compact m r st) as Hc'.
    destruct (startGame_shape m r st)
      as [_ [_ [_ [Htl [Hsel [_ [_ [_ [_ Htg]]]]]]]]].
    cbv zeta in *. unfold Inv2. rewrite Htl, Hsel.
    split; [exact Hc'|]. split; [unfold TIME_LIMIT; lia|].
    split; [constructor|]. right. lia.
  - apply Some_eq in E; subst st'. unfold handleBlockClick.
    destruct (gameOver st || isPaused st); [exact HI|].
    unfold Inv2. fields. repeat split; auto; try lia.
    now apply toggle_NoDup.
  - destruct (checkSum r st) as [[st1 r1]|] eqn:C; [|discriminate].
    cbn [option_map fst] in E. apply Some_eq in E; subst st1.
    apply checkSum_cases in C. cbv zeta in C.
    destruct C as [[_ [Hne [g [Hclr C]]]]|[[_ C]|[_ C]]].
    + assert (1 <= target st <= 4 * MAX_VALUE) as Hrange.
      { destruct Hr as [[H0 _]|H]; [contradiction | exact H]. }
      pose proof (clear_compact _ _ _ Hl Hclr) as Hcg.
      pose proof (clear_lattice_ok _ _ _ Hl Hclr) as Hlg.
      destruct (mode st) as [[|]|].
      * replace st' with (fst (st', r1)) by reflexivity. rewrite C.
        match goal with
        | |- context [addNewRow r ?s] =>
            destruct (addNewRow_frame r s) as [_ [Et [Hsel [_ [Htl _]]]]];
            pose proof (addNewRow_compact r s Hlg Hcg) as Hc'
        end.
        unfold Inv2. rewrite Et, Hsel, Htl. fields.
        split; [exact Hc'|]. split; [exact Ht|]. split; [constructor|].
        now right.
      * apply pair_eq in C; destruct C as [-> _]. unfold Inv2. fields.
        split; [exact Hcg|]. split; [unfold TIME_LIMIT; lia|].
        split; [constructor | now right].
      * apply pair_eq in C; destruct C as [-> _]. unfold Inv2. fields.
        split; [exact Hcg|]. split; [unfold TIME_LIMIT; lia|].
        split; [constructor | now right].
    + apply pair_eq in C; destruct C as [-> _]. unfold Inv2. fields.
      split; [exact Hc|]. split; [exact Ht|]. split; [constructor | exact Hr].
    + apply pair_eq in C; destruct C as [-> _]. exact HI.
  - destruct (running st) eqn:Hrun; [|discriminate].
    apply Some_eq in E; subst st'.
    assert (1 <= target st <= 4 * MAX_VALUE) as Hrange.
    { destruct Hr as [[_ [_ Hm]]|H]; [|exact H].
      unfold running in Hrun. rewrite Hm in Hrun. discriminate. }
    unfold tick. destruct (timeLeft st <=? 1) eqn:Hle.
    + match goal with
      | |- context [addNewRow r ?s] =>
          destruct (addNewRow_frame r s) as [_ [Et [Hsel [_ [Htl _]]]]];
          pose proof (addNewRow_compact r s Hl Hc) as Hc'
      end.
      unfold Inv2. rewrite Et, Hsel, Htl. fields.
      split; [exact Hc'|]. split; [unfold TIME_LIMIT; lia|].
      split; [exact Hs | now right].
    + apply Z.leb_gt in Hle. unfold Inv2. fields.
      split; [exact Hc|]. split; [lia|]. split; [exact Hs | now right].
  - apply Some_eq in E; subst st'. unfold newTarget.
    pose proof (newTarget_range (grid st) r Hv) as Hn.
    destruct (generateTarget (grid st) r) as [t r1]. cbn [fst] in Hn.
    unfold Inv2. fields.
    split; [exact Hc|]. split; [exact Ht|]. split; [exact Hs | now right].
  - apply Some_eq in E; subst st'. exact HI.
  - apply Some_eq in E; subst st'. exact HI.
  - apply Some_eq in E; subst st'. unfold Inv2. fields.
    split; [exact Hc|]. split; [exact Ht|]. split; [exact Hs|].
    destruct Hr as [[H0 [Hgr _]]|H]; [left; auto | now right].
Qed.

Lemma initialState_Inv2 : Inv2 initialState.
Proof.
  unfold Inv2, initialState. fields.
  split; [reflexivity|]. split; [unfold TIME_LIMIT; lia|].
  split; [constructor | left; auto].
Qed.

Lemma run_Inv2 (trace : list (Rand * Event)) (st st' : GameState) :
  Inv st -> Inv2 st -> run trace st = Some st' -> Inv2 st'.
Proof.
  revert st. induction trace as [|[r e] rest IH]; intros st HI H2 E; cbn [run] in E.
  - apply Some_eq in E. now subst.
  - destruct (transition r e st) as [st1|] eqn:T; [|discriminate].
    apply (IH st1); [| |exact E].
    + now apply (transition_Inv r e st).
    + now apply (transition_Inv2 r e st).
Qed.

Lemma reachable_Inv2 (st : GameState) : reachable st -> Inv2 st.
Proof.
  intros [trace E].
  apply (run_Inv2 trace initialState);
    [apply initialState_Inv | apply initialState_Inv2 | exact E].
Qed.

Lemma startedState_reachable : reachable startedState.
Proof. exists [(sampleRand, Start classic)]. reflexivity. Qed.

Lemma lattice_capacity (g : Grid) :
  lattice_ok g = true -> Z.of_nat (length (flat g)) <= GRID_ROWS * GRID_COLS.
Proof.
  intros H. apply lattice_ok_spec in H. destruct H as [Hin Hnd].
  set (all := list_prod (map Z.of_nat (seq 0 (Z.to_nat GRID_ROWS))) columns).
  assert (incl (map cell (flat g)) all) as Hincl.
  { intros p Hp. apply in_map_iff in Hp. destruct Hp as [b [<- Hb]].
    specialize (Hin b Hb). unfold all, cell. apply in_prod.
    - apply in_map_iff. exists (Z.to_nat (row b)). split; [lia|].
      apply in_seq. lia.
    - apply columns_spec. lia. }
  pose proof (NoDup_incl_length Hnd Hincl) as Hlen.
  rewrite length_map in Hlen.
  replace (length all) with 70%nat in Hlen by reflexivity.
  unfold GRID_ROWS, GRID_COLS. lia.
Qed.

(** X6.  The grid of every reachable state is well formed: every block
    sits on the lattice ([0 <= row < GRID_ROWS], [0 <= col < GRID_COLS]),
    no two blocks share a cell, so that the grid never holds more than
    [GRID_ROWS * GRID_COLS] blocks, every block has a value in
    [1, MAX_VALUE], and the blocks of one inner array are in one row. *)
Theorem reachable_grid_wellformed (st : GameState) :
  reachable st ->
  (forall b, In b (flat (grid st)) ->
     0 <= row b < GRID_ROWS /\ 0 <= col b < GRID_COLS /\
     1 <= value b <= MAX_VALUE) /\
  NoDup (map cell (flat (grid st))) /\
  Z.of_nat (length (flat (grid st))) <= GRID_ROWS * GRID_COLS /\
  (forall rw a b, In rw (grid st) -> In a rw -> In b rw -> row a = row b).
Proof.
  intros H. apply reachable_Inv in H. destruct H as [Hg _].
  destruct (grid_ok_parts _ Hg) as [Hl [Hu Hv]].
  pose proof (lattice_capacity _ Hl) as Hcap.
  apply lattice_ok_spec in Hl. destruct Hl as [Hin Hnd].
  split; [|split; [exact Hnd|split; [exact Hcap|]]].
  - intros b Hb. specialize (Hin b Hb).
    pose proof (proj1 (values_ok_spec _) Hv b Hb). tauto.
  - now apply rows_uniform_spec.
Qed.

(** Witness of X6: the state after a classic success. *)
Lemma reachable_grid_wellformed_witness :
  reachable scoredState /\ NoDup (map cell (flat (grid scoredState))).
Proof.
  assert (reachable scoredState) as H.
  { exists ((sampleRand, Start classic) :: scoringTrace). vm_compute. reflexivity. }
  split; [exact H|].
  exact (proj1 (proj2 (reachable_grid_wellformed scoredState H))).
Defined.

(** X7.  The columns of every reachable grid are stacks standing on the
    bottom row: a block is in row [GRID_ROWS - 1] or has a block in the
    cell directly below it. *)
Theorem reachable_no_gaps (st : GameState) :
  reachable st ->
  forall b, In b (flat (grid st)) ->
    row b = GRID_ROWS - 1 \/
    exists b', In b' (flat (grid st)) /\ row b' = row b + 1 /\ col b' = col b.
Proof.
  intros H b Hb. apply reachable_Inv2 in H. destruct H as [Hc _].
  destruct (proj1 (compact_spec _) Hc b Hb) as [H9|[b' [Hb' E]]].
  - now left.
  - right. exists b'. unfold cell in E. injection E as Er Ec. auto.
Qed.

(** Witness of X7: the block of row 5, column 1 after a classic success
    stands on a block of row 6. *)
Lemma reachable_no_gaps_witness :
  reachable scoredState /\
  exists b', In b' (flat (grid scoredState)) /\ row b' = 6 /\ col b' = 1.
Proof.
  assert (reachable scoredState) as H.
  { exists ((sampleRand, Start classic) :: scoringTrace). vm_compute. reflexivity. }
  split; [exact H|].
  destruct (reachable_no_gaps scoredState H (mkBlock "2" 4 5 1))
    as [H9|[b' [Hb' [Hr Hc]]]].
  - vm_compute. left. reflexivity.
  - discriminate H9.
  - exists b'. auto.
Defined.

(** X8.  In every reachable state the timer shows between 1 and
    [TIME_LIMIT] seconds: the tick that would bring it to 0 resets it. *)
Theorem reachable_timeLeft (st : GameState) :
  reachable st -> 1 <= timeLeft st <= TIME_LIMIT.
Proof. intros H. now apply reachable_Inv2 in H as [_ [Ht _]]. Qed.

(** Witness of X8: the state after a start. *)
Lemma reachable_timeLeft_witness :
  reachable startedState /\ 1 <= timeLeft startedState <= TIME_LIMIT.
Proof.
  split; [exact startedState_reachable|].
  exact (reachable_timeLeft startedState startedState_reachable).
Defined.

(** X9.  In every reachable state no id occurs twice in [selectedIds]. *)
Theorem reachable_selection_NoDup (st : GameState) :
  reachable st -> NoDup (selectedIds st).
Proof. intros H. now apply reachable_Inv2 in H as [_ [_ [Hs _]]]. Qed.

(** Witness of X9: the state with two blocks selected. *)
Lemma reachable_selection_NoDup_witness :
  reachable selectedState /\ NoDup (selectedIds selectedState).
Proof.
  assert (reachable selectedState) as H.
  { exists ((sampleRand, Start classic) :: firstn 2 scoringTrace).
    vm_compute. reflexivity. }
  split; [exact H | exact (reachable_selection_NoDup selectedState H)].
Defined.

(** X10.  The target of a reachable state is 0 only before the first game
    (the grid is then empty and no mode is chosen); in every other
    reachable state it lies between 1 and [4 * MAX_VALUE].  So the guard
    [target !== 0] of the check-sum effect only matters on the mounted
    component. *)
Theorem reachable_target (st : GameState) :
  reachable st ->
  target st = 0 /\ grid st = [] /\ mode st = None \/
  1 <= target st <= 4 * MAX_VALUE.
Proof. intros H. now apply reachable_Inv2 in H as [_ [_ [_ Hr]]]. Qed.

(** Witness of X10: the state after a start. *)
Lemma reachable_target_witness :
  reachable startedState /\ 1 <= target startedState <= 4 * MAX_VALUE.
Proof.
  split; [exact startedState_reachable|].
  destruct (reachable_target startedState startedState_reachable)
    as [[H0 _]|H]; [vm_compute in H0; discriminate H0 | exact H].
Defined.

(** ** Game over *)

Lemma addNewRow_gameOver (r : Rand) (st : GameState) :
  gameOver (fst (addNewRow r st)) = gameOver st || existsb topRow (grid st).
Proof.
  destruct (existsb topRow (grid st)) eqn:E.
  - rewrite (addNewRow_full r st E). cbn [fst gameOver]. now rewrite orb_true_r.
  - rewrite (addNewRow_shift r st E). cbn [fst gameOver]. now rewrite orb_false_r.
Qed.




(** X12.  The game ends only on a full column.  A transition that sets
    [gameOver] is a timer tick, or a run of the check-sum effect in
    classic mode, and the grid it leaves has a block in row 0. *)
Theorem game_over_cause (r : Rand) (e : Event) (st st' : GameState) :
  gameOver st = false -> transition r e st = Some st' -> gameOver st' = true ->
  (e = Tick \/ e = Evaluate /\ mode st = Some classic) /\
  exists b, In b (flat (grid st')) /\ row b = 0.
Proof.
  intros Ho E Ho'. destruct e; cbn [transition] in E.
  - apply Some_eq in E; subst st'.
    destruct (startGame_shape m r st) as [_ [_ [_ [_ [_ [Hg _]]]]]].
    cbv zeta in Hg. congruence.
  - apply Some_eq in E; subst st'. unfold handleBlockClick in Ho'.
    destruct (gameOver st || isPaused st); fields; congruence.
  - destruct (checkSum r st) as [[st1 r1]|] eqn:C; [|discriminate].
    cbn [option_map fst] in E. apply Some_eq in E; subst st1.
    apply checkSum_cases in C. cbv zeta in C.
    destruct C as [[_ [_ [g [_ C]]]]|[[_ C]|[_ C]]].
    + destruct (mode st) as [[|]|] eqn:Em.
      * split; [right; auto|].
        apply (f_equal fst) in C. cbn [fst] in C. subst st'.
        rewrite addNewRow_gameOver in Ho'. fields. rewrite Ho in Ho'.
        cbn [orb] in Ho'.
        match goal with
        | |- context [addNewRow r ?s] =>
            rewrite (addNewRow_full r s Ho')
        end.
        fields. now apply topRow_sound.
      * apply pair_eq in C; destruct C as [-> _]. fields. congruence.
      * apply pair_eq in C; destruct C as [-> _]. fields. congruence.
    + apply pair_eq in C; destruct C as [-> _]. fields. congruence.
    + apply pair_eq in C; destruct C as [-> _]. congruence.
  - destruct (running st); [|discriminate]. apply Some_eq in E; subst st'.
    split; [now left|]. unfold tick in *.
    destruct (timeLeft st <=? 1); [|fields; congruence].
    rewrite addNewRow_gameOver in Ho'. fields. rewrite Ho in Ho'.
    cbn [orb] in Ho'.
    match goal with
    | |- context [addNewRow r ?s] => rewrite (addNewRow_full r s Ho')
    end.
    fields. now apply topRow_sound.
  - apply Some_eq in E; subst st'. unfold newTarget in Ho'.
    destruct (generateTarget (grid st) r). fields. congruence.
  - apply Some_eq in E; subst st'. fields. congruence.
  - apply Some_eq in E; subst st'. fields. congruence.
  - apply Some_eq in E; subst st'. fields. congruence.
Qed.

(** Witness of X12: the last second on a grid that reaches row 0. *)
Lemma game_over_cause_witness :
  exists st',
    transition sampleRand Tick lastSecondState = Some st' /\
    gameOver st' = true /\
    exists b, In b (flat (grid st')) /\ row b = 0.
Proof.
  destruct (transition sampleRand Tick lastSecondState) as [st'|] eqn:E;
    [|vm_compute in E; discriminate E].
  assert (gameOver st' = true) as Ho.
  { vm_compute in E. apply Some_eq in E. now subst st'. }
  exists st'. split; [reflexivity|]. split; [exact Ho|].
  exact (proj2 (game_over_cause sampleRand Tick lastSecondState st'
                  eq_refl E Ho)).
Defined.

(** ** Selection and evaluation *)

(** X13.  Nothing selected, nothing happens.  In a reachable state in
    which no block of the grid has a selected id (the selection is empty,
    or holds only ids of blocks that are gone), a run of the check-sum
    effect returns the state as it is and draws no random number. *)
Theorem evaluation_idle (r : Rand) (st : GameState) :
  reachable st ->
  selectedBlocks (grid st) (selectedIds st) = [] ->
  checkSum r st = Some (st, r).
Proof.
  intros H Hsel. apply reachable_Inv in H. destruct H as [_ [_ [Ht _]]].
  unfold checkSum. rewrite Hsel. change (sumValues []) with 0.
  destruct (Z.eq_dec (target st) 0) as [E|E].
  - rewrite E. reflexivity.
  - replace (0 =? target st) with false by (symmetry; apply Z.eqb_neq; lia).
    replace (0 >? target st) with false
      by (symmetry; rewrite Z.gtb_ltb; apply Z.ltb_ge; lia).
    reflexivity.
Qed.

(** Witness of X13: the state after a start, nothing selected. *)
Lemma evaluation_idle_witness :
  reachable startedState /\
  checkSum sampleRand startedState = Some (startedState, sampleRand).
Proof.
  split; [exact startedState_reachable|].
  apply (evaluation_idle sampleRand startedState startedState_reachable).
  vm_compute. reflexivity.
Defined.

Lemma toggle_self (sel : list string) (x : string) :
  In x (toggle sel x) <-> ~ In x sel.
Proof.
  unfold toggle. destruct (includes sel x) eqn:E.
  - apply includes_spec in E. rewrite filter_In. split.
    + intros [_ H]. rewrite String.eqb_refl in H. discriminate.
    + intros H. contradiction.
  - split.
    + intros _ H. apply includes_spec in H. congruence.
    + intros _. apply in_or_app. right. now left.
Qed.

Lemma filter_out_absent (sel : list string) (x : string) :
  ~ In x sel -> filter (fun i => negb (String.eqb i x)) sel = sel.
Proof.
  intros H. apply forallb_filter_id. apply forallb_forall. intros y Hy.
  apply negb_true_iff. apply String.eqb_neq. intros ->. contradiction.
Qed.

Lemma filter_out_present (sel : list string) (x : string) :
  NoDup sel -> In x sel ->
  Permutation (filter (fun i => negb (String.eqb i x)) sel ++ [x]) sel.
Proof.
  induction 1 as [|y t Hy Ht IH]; intros Hin; [destruct Hin|].
  cbn [filter]. destruct (String.eqb y x) eqn:E; cbn [negb].
  - apply String.eqb_eq in E. subst y.
    rewrite filter_out_absent by exact Hy.
    symmetry. apply Permutation_cons_append.
  - destruct Hin as [->|Hin]; [rewrite String.eqb_refl in E; discriminate|].
    cbn [app]. constructor. now apply IH.
Qed.

Lemma click_running (b : Block) (st : GameState) :
  gameOver st = false -> isPaused st = false ->
  handleBlockClick b st =
  mkState (mode st) (grid st) (target st) (toggle (selectedIds st) (id b))
          (score st) (gameOver st) (timeLeft st) (isPaused st) (combo st).
Proof.
  intros Ho Hp. unfold handleBlockClick.
  destruct (gameOver st || isPaused st) eqn:G; [|reflexivity].
  rewrite Ho, Hp in G. discriminate.
Qed.

(** X14.  A click toggles one id.  While the game is neither over nor
    paused and no id is selected twice, a click on a block flips the
    membership of its id in [selectedIds] and of no other id; a second
    click on the block gives back the selection up to the order of the
    ids, and gives back the very state when the block was not selected at
    first. *)
Theorem click_toggles (b : Block) (st : GameState) :
  gameOver st = false -> isPaused st = false -> NoDup (selectedIds st) ->
  let st1 := handleBlockClick b st in
  let st2 := handleBlockClick b st1 in
  (In (id b) (selectedIds st1) <-> ~ In (id b) (selectedIds st)) /\
  (forall y, y <> id b -> (In y (selectedIds st1) <-> In y (selectedIds st))) /\
  Permutation (selectedIds st2) (selectedIds st) /\
  (~ In (id b) (selectedIds st) -> st2 = st).
Proof.
  intros Ho Hp Hnd. cbv zeta.
  rewrite (click_running b st Ho Hp).
  rewrite click_running by assumption. fields.
  split; [apply toggle_self|]. split; [|split].
  - intros y Hy. rewrite <- !includes_spec. now rewrite toggle_other.
  - unfold toggle at 2. destruct (includes (selectedIds st) (id b)) eqn:E.
    + unfold toggle.
      replace (includes (filter (fun i => negb (String.eqb i (id b)))
                                (selectedIds st)) (id b)) with false.
      * apply filter_out_present; [exact Hnd | now apply includes_spec].
      * symmetry. apply not_true_is_false. intros H.
        apply includes_spec, filter_In in H. destruct H as [_ H].
        rewrite String.eqb_refl in H. discriminate.
    + unfold toggle.
      replace (includes (selectedIds st ++ [id b]) (id b)) with true.
      * rewrite filter_app. cbn [filter]. rewrite String.eqb_refl. cbn [negb].
        rewrite app_nil_r, filter_out_absent; [reflexivity|].
        intros H. apply includes_spec in H. congruence.
      * symmetry. apply includes_spec. apply in_or_app. right. now left.
  - intros Habs.
    assert (includes (selectedIds st) (id b) = false) as E.
    { apply not_true_is_false. intros H. now apply includes_spec in H. }
    unfold toggle at 2. rewrite E. unfold toggle.
    replace (includes (selectedIds st ++ [id b]) (id b)) with true
      by (symmetry; apply includes_spec; apply in_or_app; right; now left).
    rewrite filter_app. cbn [filter]. rewrite String.eqb_refl. cbn [negb].
    rewrite app_nil_r, filter_out_absent by exact Habs.
    now destruct st.
Qed.

(** Witness of X14: a second click on a selected block of
    [selectedState]. *)
Lemma click_toggles_witness :
  ~ In "0"%string
      (selectedIds (handleBlockClick (mkBlock "0" 2 6 0) selectedState)) /\
  Permutation
    (selectedIds (handleBlockClick (mkBlock "0" 2 6 0)
                    (handleBlockClick (mkBlock "0" 2 6 0) selectedState)))
    (selectedIds selectedState).
Proof.
  assert (NoDup (selectedIds selectedState)) as Hnd.
  { vm_compute. repeat constructor; cbn [In]; intuition discriminate. }
  destruct (click_toggles (mkBlock "0" 2 6 0) selectedState eq_refl eq_refl Hnd)
    as [H1 [_ [H3 _]]].
  split; [|exact H3].
  intros H. apply H1 in H. apply H. vm_compute. left. reflexivity.
Defined.

Lemma includes_ext (sel sel' : list string) :
  (forall x, In x sel <-> In x sel') ->
  forall x, includes sel x = includes sel' x.
Proof.
  intros H x. apply eq_iff_eq_true. rewrite !includes_spec. apply H.
Qed.

(** X15.  The selection counts as a set.  Two selections with the same
    ids, in any order and with any repetition, select the same blocks of a
    grid and make the clearing updater return the same grid; hence a run
    of the check-sum effect on two states that differ in this way only
    fails in both or returns, in both, the same grid, target, score,
    combo, [timeLeft], [gameOver], mode and random source. *)
Theorem selection_as_set (r : Rand) (st : GameState) (sel' : list string) :
  (forall x, In x (selectedIds st) <-> In x sel') ->
  let st' := mkState (mode st) (grid st) (target st) sel' (score st)
                     (gameOver st) (timeLeft st) (isPaused st) (combo st) in
  selectedBlocks (grid st) (selectedIds st) = selectedBlocks (grid st) sel' /\
  clearAndCompact (selectedIds st) (grid st) = clearAndCompact sel' (grid st) /\
  match checkSum r st, checkSum r st' with
  | Some (a, ra), Some (b, rb) =>
      grid a = grid b /\ target a = target b /\ score a = score b /\
      combo a = combo b /\ timeLeft a = timeLeft b /\
      gameOver a = gameOver b /\ mode a = mode b /\ isPaused a = isPaused b /\
      ra = rb
  | None, None => True
  | _, _ => False
  end.
Proof.
  intros Hsame. cbv zeta.
  pose proof (includes_ext _ _ Hsame) as Hinc.
  assert (selectedBlocks (grid st) (selectedIds st) =
          selectedBlocks (grid st) sel') as Hsb.
  { unfold selectedBlocks. apply filter_ext. intros b. apply Hinc. }
  assert (clearAndCompact (selectedIds st) (grid st) =
          clearAndCompact sel' (grid st)) as Hcl.
  { unfold clearAndCompact.
    replace (filter (unselected (selectedIds st)) (flat (grid st)))
      with (filter (unselected sel') (flat (grid st))); [reflexivity|].
    apply filter_ext. intros b. unfold unselected. now rewrite Hinc. }
  split; [exact Hsb|]. split; [exact Hcl|].
  unfold checkSum. fields. rewrite <- Hsb, <- Hcl.
  destruct (_ && _).
  - destruct (clearAndCompact (selectedIds st) (grid st)) as [g|]; [|exact I].
    destruct (mode st) as [[|]|].
    + destruct (addNewRow r _) as [a ra]. repeat split; reflexivity.
    + repeat split; reflexivity.
    + repeat split; reflexivity.
  - destruct (_ >? _); repeat split; reflexivity.
Qed.

(** Witness of X15: the two selected ids of [selectedState] in the other
    order. *)
Lemma selection_as_set_witness :
  selectedBlocks (grid selectedState) (selectedIds selectedState) =
  selectedBlocks (grid selectedState) ["6"; "0"]%string.
Proof.
  refine (proj1 (selection_as_set sampleRand selectedState
                   ["6"; "0"]%string _)).
  intros x. change (selectedIds selectedState) with ["0"; "6"]%string.
  cbn [In]. tauto.
Defined.

(** ** The leaderboard *)

Lemma insertByScore_perm (e : Leader.LeaderboardEntry)
  (l : list Leader.LeaderboardEntry) :
  Permutation (Leader.insertByScore e l) (e :: l).
Proof.
  induction l as [|x t IH]; cbn [Leader.insertByScore].
  - reflexivity.
  - destruct (Leader.score e <? Leader.score x); [|reflexivity].
    rewrite IH. apply perm_swap.
Qed.

Lemma sortByScore_perm (l : list Leader.LeaderboardEntry) :
  Permutation (Leader.sortByScore l) l.
Proof.
  induction l as [|e t IH]; cbn [Leader.sortByScore].
  - reflexivity.
  - rewrite insertByScore_perm. now constructor.
Qed.

Lemma sortByScore_sorted (l : list Leader.LeaderboardEntry) :
  StronglySorted (fun a b => Leader.score b <= Leader.score a)
                 (Leader.sortByScore l).
Proof.
  induction l as [|e t IH]; cbn [Leader.sortByScore]; [constructor|].
  induction IH as [|x s Hs IHs Hx]; cbn [Leader.insertByScore].
  - constructor; constructor.
  - destruct (Leader.score e <? Leader.score x) eqn:E.
    + apply Z.ltb_lt in E. constructor; [exact IHs|].
      rewrite Forall_forall in *. intros y Hy.
      apply (Permutation_in _ (insertByScore_perm e s)) in Hy.
      destruct Hy as [<-|Hy]; [lia | now apply Hx].
    + apply Z.ltb_ge in E. constructor; [now constructor|].
      constructor; [exact E|].
      rewrite Forall_forall in *. intros y Hy. specialize (Hx y Hy). lia.
Qed.

Lemma sorted_split {A : Type} (R : A -> A -> Prop) (l1 l2 : list A) :
  StronglySorted R (l1 ++ l2) ->
  StronglySorted R l1 /\ forall a b, In a l1 -> In b l2 -> R a b.
Proof.
  induction l1 as [|x t IH]; cbn [app]; intros H.
  - split; [constructor | intros a b []].
  - apply StronglySorted_inv in H. destruct H as [Ht Hx].
    destruct (IH Ht) as [Hs Hc]. split.
    + constructor; [exact Hs|]. rewrite Forall_forall in *.
      intros y Hy. apply Hx. apply in_or_app. now left.
    + intros a b [<-|Ha] Hb.
      * rewrite Forall_forall in Hx. apply Hx. apply in_or_app. now right.
      * now apply Hc.
Qed.

(** What [newList] keeps and what it drops. *)
Lemma newList_split (cur : list Leader.LeaderboardEntry)
  (entry : Leader.LeaderboardEntry) :
  let kept := Leader.newList cur entry in
  length kept = Nat.min 10 (length cur + 1) /\
  StronglySorted (fun a b => Leader.score b <= Leader.score a) kept /\
  exists dropped,
    Permutation (kept ++ dropped) (cur ++ [entry]) /\
    forall k d, In k kept -> In d dropped -> Leader.score d <= Leader.score k.
Proof.
  cbv zeta. unfold Leader.newList.
  set (sorted := Leader.sortByScore (cur ++ [entry])).
  pose proof (sortByScore_sorted (cur ++ [entry])) as Hs. fold sorted in Hs.
  rewrite <- (firstn_skipn 10 sorted) in Hs.
  apply sorted_split in Hs. destruct Hs as [Hk Hd].
  split; [|split; [exact Hk|]].
  - rewrite length_firstn. unfold sorted.
    rewrite (Permutation_length (sortByScore_perm _)), length_app.
    reflexivity.
  - exists (skipn 10 sorted). split; [|exact Hd].
    rewrite firstn_skipn. apply sortByScore_perm.
Qed.

Lemma withList_other (prev : Leader.Leaderboard) (m m' : GameMode)
  (l : list Leader.LeaderboardEntry) :
  m' <> m -> Leader.withList prev m l m' = prev m'.
Proof. intros H. unfold Leader.withList. destruct m', m; try reflexivity; congruence. Qed.

Lemma withList_same (prev : Leader.Leaderboard) (m : GameMode)
  (l : list Leader.LeaderboardEntry) :
  Leader.withList prev m l m = l.
Proof. unfold Leader.withList. now destruct m. Qed.

(** X16.  Saving a score.  The effect writes nothing unless the game is
    over and a mode is chosen.  Otherwise it writes the list of that mode
    only; the new list has [min 10 (n + 1)] entries for an old list of
    [n], is sorted by descending score whatever the order of the old list
    was, and consists of entries of the old list and the new entry (the
    score of the state, the player's name or the default name, the date),
    such that no entry left out has a higher score than an entry kept. *)
Theorem saveScore_board (playerName today : string) (st : GameState)
  (prev : Leader.Leaderboard) :
  let board := saveScore playerName today st prev in
  (gameOver st = false \/ mode st = None -> forall m, board m = prev m) /\
  (forall m, gameOver st = true -> mode st = Some m ->
     (forall m', m' <> m -> board m' = prev m') /\
     length (board m) = Nat.min 10 (length (prev m) + 1) /\
     StronglySorted (fun a b => Leader.score b <= Leader.score a) (board m) /\
     exists entry dropped,
       Leader.score entry = score st /\ Leader.date entry = today /\
       (playerName <> EmptyString -> Leader.name entry = playerName) /\
       (playerName = EmptyString -> Leader.name entry = anonymous) /\
       Permutation (board m ++ dropped) (prev m ++ [entry]) /\
       forall k d, In k (board m) -> In d dropped ->
                   Leader.score d <= Leader.score k).
Proof.
  cbv zeta. unfold saveScore. split.
  - intros [Ho|Hm] m.
    + now rewrite Ho.
    + rewrite Hm. now destruct (gameOver st).
  - intros m Ho Hm. rewrite Ho, Hm.
    set (entry := Leader.mkEntry _ (score st) today).
    split; [intros m' Hne; now apply withList_other|].
    rewrite withList_same.
    destruct (newList_split (prev m) entry) as [Hlen [Hs [dropped [Hp Hd]]]].
    split; [exact Hlen|]. split; [exact Hs|].
    exists entry, dropped. split; [reflexivity|]. split; [reflexivity|].
    split; [|split; [|split; [exact Hp | exact Hd]]].
    + intros Hne. unfold entry. cbn [Leader.name].
      replace (String.eqb playerName EmptyString) with false; [reflexivity|].
      symmetry. now apply String.eqb_neq.
    + intros ->. reflexivity.
Qed.

(** Witness of X16: a game over with 120 points in classic mode, saved on
    a board of three classic scores. *)
Lemma saveScore_board_witness :
  map Leader.score
      (saveScore "dee" "d4" overState
         (fun m => match m with classic => sampleBoard | time => [] end)
         classic)
  = [120; 90; 50; 50] /\
  StronglySorted (fun a b => Leader.score b <= Leader.score a)
    (saveScore "dee" "d4" overState
       (fun m => match m with classic => sampleBoard | time => [] end)
       classic).
Proof.
  split; [reflexivity|].
  exact (proj1 (proj2 (proj2
           (proj2 (saveScore_board "dee" "d4" overState
                     (fun m => match m with classic => sampleBoard | time => [] end))
                  classic eq_refl eq_refl)))).
Defined.

(** X17.  A deserving score enters the board.  On a board of at most ten
    entries, the new entry is in the new list when the board has fewer
    than ten entries or holds an entry with a strictly lower score. *)
Theorem newList_keeps (cur : list Leader.LeaderboardEntry)
  (entry : Leader.LeaderboardEntry) :
  (length cur <= 10)%nat ->
  (length cur < 10)%nat \/
  (exists p, In p cur /\ Leader.score p < Leader.score entry) ->
  In entry (Leader.newList cur entry).
Proof.
  intros Hlen Hcase.
  destruct (newList_split cur entry) as [Hk [_ [dropped [Hp Hd]]]].
  cbv zeta in *.
  assert (length (Leader.newList cur entry) + length dropped
          = length cur + 1)%nat as Hsum.
  { rewrite <- length_app, (Permutation_length Hp), length_app. reflexivity. }
  assert (In entry (Leader.newList cur entry ++ dropped)) as Hin.
  { apply (Permutation_in _ (Permutation_sym Hp)).
    apply in_or_app. right. now left. }
  apply in_app_or in Hin. destruct Hin as [Hin|Hin]; [exact Hin|].
  exfalso. destruct Hcase as [Hlt|[p [Hpc Hlow]]].
  - destruct dropped as [|d ds]; [destruct Hin|]. cbn [length] in Hsum. lia.
  - assert (In p (Leader.newList cur entry ++ dropped)) as Hpin.
    { apply (Permutation_in _ (Permutation_sym Hp)).
      apply in_or_app. now left. }
    apply in_app_or in Hpin. destruct Hpin as [Hpk|Hpd].
    + specialize (Hd p entry Hpk Hin). lia.
    + assert (length dropped <= 1)%nat as Hone by lia.
      destruct dropped as [|d [|d' ds]]; cbn [length] in Hone; try lia.
      * destruct Hin.
      * destruct Hin as [<-|[]]. destruct Hpd as [<-|[]]. lia.
Qed.

(** Witness of X17: 55 points against a full board whose lowest score is
    10. *)
Lemma newList_keeps_witness :
  In (Leader.mkEntry "dee" 55 "d4")
     (Leader.newList fullBoard (Leader.mkEntry "dee" 55 "d4")).
Proof.
  apply (newList_keeps fullBoard (Leader.mkEntry "dee" 55 "d4")).
  - vm_compute. lia.
  - right. exists (Leader.mkEntry "p" 10 "d"). split.
    + vm_compute. do 9 right. left. reflexivity.
    + cbn [Leader.score]. lia.
Defined.

Lemma insertByScore_last (x e : Leader.LeaderboardEntry)
  (l : list Leader.LeaderboardEntry) :
  Leader.score e <= Leader.score x ->
  Leader.insertByScore x (l ++ [e]) = Leader.insertByScore x l ++ [e].
Proof.
  intros Hle. induction l as [|y t IH]; cbn [app Leader.insertByScore].
  - replace (Leader.score x <? Leader.score e) with false; [reflexivity|].
    symmetry. apply Z.ltb_ge. exact Hle.
  - destruct (Leader.score x <? Leader.score y); [|reflexivity].
    cbn [app]. now rewrite IH.
Qed.

Lemma sortByScore_last (cur : list Leader.LeaderboardEntry)
  (e : Leader.LeaderboardEntry) :
  (forall p, In p cur -> Leader.score e <= Leader.score p) ->
  Leader.sortByScore (cur ++ [e]) = Leader.sortByScore cur ++ [e].
Proof.
  induction cur as [|x t IH]; intros H; cbn [app Leader.sortByScore].
  - reflexivity.
  - rewrite IH by (intros p Hp; apply H; now right).
    apply insertByScore_last. apply H. now left.
Qed.

(** X18.  Ties go to the earlier entries.  When the board holds ten
    entries or more and none of them has a lower score than the new entry,
    the new entry is left out: the new list is the first ten entries of
    the sorted old list. *)
Theorem newList_full (cur : list Leader.LeaderboardEntry)
  (entry : Leader.LeaderboardEntry) :
  (10 <= length cur)%nat ->
  (forall p, In p cur -> Leader.score entry <= Leader.score p) ->
  Leader.newList cur entry = firstn 10 (Leader.sortByScore cur).
Proof.
  intros Hlen Hall. unfold Leader.newList.
  rewrite (sortByScore_last cur entry Hall), firstn_app.
  replace (10 - length (Leader.sortByScore cur))%nat with 0%nat.
  - cbn [firstn]. apply app_nil_r.
  - rewrite (Permutation_length (sortByScore_perm cur)). lia.
Qed.

(** Witness of X18: 10 points against a full board whose lowest score is
    10. *)
Lemma newList_full_witness :
  Leader.newList fullBoard (Leader.mkEntry "dee" 10 "d4") = fullBoard.
Proof.
  rewrite (newList_full fullBoard (Leader.mkEntry "dee" 10 "d4")).
  - vm_compute. reflexivity.
  - vm_compute. lia.
  - intros p Hp. vm_compute in Hp.
    repeat (destruct Hp as [<-|Hp]; [cbn [Leader.score]; lia|]).
    destruct Hp.
Defined.

(** ** The high score *)

(** X19.  The high score follows the score.  Run the component with the
    high-score effect after every transition, from a state whose score
    does not exceed the stored high score: the high score never
    decreases, it is never below the current score (a new game resets the
    score, not the high score), and it is the stored value or the score
    of a state that was reached. *)
Theorem high_score_tracks (trace : list (Rand * Event)) (st st' : GameState)
  (hs hs' : Z) :
  score st <= hs ->
  runHighScore trace st hs = Some (st', hs') ->
  run trace st = Some st' /\ hs <= hs' /\ score st' <= hs' /\
  (hs' = hs \/
   exists pre post mid,
     trace = pre ++ post /\ run pre st = Some mid /\ score mid = hs').
Proof.
  revert st hs. induction trace as [|[r e] rest IH]; intros st hs Hle E;
    cbn [runHighScore run] in *.
  - apply Some_eq in E. apply pair_eq in E. destruct E as [<- <-].
    split; [reflexivity|]. split; [lia|]. split; [lia | now left].
  - destruct (transition r e st) as [st1|] eqn:T; [|discriminate].
    assert (score st1 <= updateHighScore (score st1) hs /\
            hs <= updateHighScore (score st1) hs /\
            (updateHighScore (score st1) hs = hs \/
             updateHighScore (score st1) hs = score st1)) as [H1 [H2 H3]].
    { unfold updateHighScore. destruct (score st1 >? hs) eqn:G.
      - apply Z.gtb_lt in G. lia.
      - rewrite Z.gtb_ltb in G. apply Z.ltb_ge in G. lia. }
    destruct (IH st1 _ H1 E) as [Hrun [Hmono [Hcur Hfrom]]].
    split; [exact Hrun|]. split; [lia|]. split; [exact Hcur|].
    destruct Hfrom as [Heq|[pre [post [mid [Ht [Hr Hs]]]]]].
    + destruct H3 as [H3|H3].
      * left. congruence.
      * right. exists [(r, e)], rest, st1. cbn [run app]. rewrite T.
        repeat split; congruence.
    + right. exists ((r, e) :: pre), post, mid. cbn [run app]. rewrite T.
      repeat split; [now rewrite Ht | exact Hr | exact Hs].
Qed.

(** Witness of X19: a success worth 20 points, then a new game, with a
    stored high score of 5. *)
Lemma high_score_tracks_witness :
  exists st' hs',
    runHighScore (scoringTrace ++ [(sampleRand, Start time)]) startedState 5
    = Some (st', hs') /\
    5 <= hs' /\ score st' <= hs'.
Proof.
  destruct (runHighScore (scoringTrace ++ [(sampleRand, Start time)])
                         startedState 5) as [[st' hs']|] eqn:E;
    [|vm_compute in E; discriminate E].
  assert (score startedState <= 5) as Hle by (vm_compute; discriminate).
  destruct (high_score_tracks _ _ _ _ _ Hle E) as [_ [H1 [H2 _]]].
  exists st', hs'. split; [reflexivity|]. split; [exact H1 | exact H2].
Defined.

(** ** More on gravity, scoring and the timer *)

Lemma withRow_same (b : Block) : withRow b (row b) = b.
Proof. now destruct b. Qed.

(** A column that is a stack is its own settlement. *)
Lemma stack_settled (l : list Block) (k : Z) :
  StronglySorted (fun x y => row y < row x) l ->
  (forall b, In b l -> row b <= GRID_ROWS - 1 - k) ->
  (forall b, In b l ->
     row b = GRID_ROWS - 1 - k \/ exists b', In b' l /\ row b' = row b + 1) ->
  settleFrom k l = l.
Proof.
  intros Hs. revert k. induction Hs as [|x t Ht IH Hx]; intros k Hle Hcl.
  - reflexivity.
  - rewrite Forall_forall in Hx.
    assert (row x = GRID_ROWS - 1 - k) as Ex.
    { destruct (Hcl x (or_introl eq_refl)) as [E|[b' [[<-|Hb'] E]]].
      - exact E.
      - lia.
      - specialize (Hx b' Hb'). lia. }
    cbn [settleFrom]. rewrite <- Ex, withRow_same. f_equal.
    apply IH.
    + intros b Hb. specialize (Hx b Hb). lia.
    + intros b Hb. destruct (Hcl b (or_intror Hb)) as [E|[b' [[<-|Hb'] E]]].
      * specialize (Hx b Hb). lia.
      * left. lia.
      * right. now exists b'.
Qed.

Lemma filter_column_free (sel : list string) (c : Z) (l : list Block) :
  (forall b, In b l -> col b = c -> includes sel (id b) = false) ->
  filter (inColumn c) (filter (unselected sel) l) = filter (inColumn c) l.
Proof.
  induction l as [|b t IH]; intros Hfree; [reflexivity|].
  assert (filter (inColumn c) (filter (unselected sel) t)
          = filter (inColumn c) t) as IH'.
  { apply IH. intros x Hx. apply Hfree. now right. }
  cbn [filter]. destruct (unselected sel b) eqn:Eu.
  - cbn [filter]. now rewrite IH'.
  - destruct (inColumn c b) eqn:Ec; [|exact IH'].
    apply inColumn_spec in Ec. unfold unselected in Eu.
    rewrite (Hfree b (or_introl eq_refl) Ec) in Eu. discriminate.
Qed.

(** X20.  Gravity leaves alone the columns in which nothing is cleared.
    On a grid without gaps and with at most one block per cell of the
    lattice (every reachable grid is one), a column none of whose blocks
    is selected holds, after the clearing, the same blocks in the same
    rows. *)
Theorem untouched_column (sel : list string) (g : Grid) (c : Z) :
  lattice_ok g = true -> compact g = true -> 0 <= c < GRID_COLS ->
  (forall b, In b (flat g) -> col b = c -> includes sel (id b) = false) ->
  exists g',
    clearAndCompact sel g = Some g' /\
    Permutation (filter (inColumn c) (flat g')) (filter (inColumn c) (flat g)).
Proof.
  intros Hok Hcp Hc Hfree. destruct (clear_spec sel g Hok) as [g' [E _]].
  exists g'. split; [exact E|].
  rewrite (clear_column sel g g' c Hok E Hc).
  set (rem := filter (unselected sel) (flat g)).
  assert (forall b, In b (colBlocks rem c) <-> In b (flat g) /\ col b = c) as Hmem.
  { intros b. rewrite colBlocks_In. unfold rem. rewrite filter_In. split.
    - tauto.
    - intros [Hb Hcol]. split; [split; [exact Hb|] | exact Hcol].
      unfold unselected. now rewrite (Hfree b Hb Hcol). }
  pose proof Hok as Hok'. apply lattice_ok_spec in Hok'.
  destruct Hok' as [Hin Hnd].
  rewrite stack_settled.
  - rewrite colBlocks_perm. unfold rem.
    now rewrite filter_column_free.
  - apply strictly_descending; [apply sortDesc_sorted|].
    apply (Permutation_NoDup
             (Permutation_map row (Permutation_sym (colBlocks_perm rem c)))).
    apply (column_rows_NoDup c).
    + intros b Hb. apply filter_In in Hb. now apply inColumn_spec.
    + unfold rem. now do 2 apply cells_filter_NoDup.
  - intros b Hb. apply Hmem in Hb. destruct Hb as [Hb _].
    specialize (Hin b Hb). lia.
  - intros b Hb. apply Hmem in Hb. destruct Hb as [Hb Hcol].
    destruct (proj1 (compact_spec g) Hcp b Hb) as [E9|[b' [Hb' Ecell]]].
    + left. lia.
    + right. exists b'. unfold cell in Ecell. injection Ecell as Er Ec.
      split; [|exact Er]. apply Hmem. split; [exact Hb' | congruence].
Qed.

(** Witness of X20: [a] is cleared from the bottom row; column 1 keeps
    its block. *)
Lemma untouched_column_witness :
  exists g',
    clearAndCompact ["a"%string] bottomRow = Some g' /\
    Permutation (filter (inColumn 1) (flat g'))
                (filter (inColumn 1) (flat bottomRow)).
Proof.
  apply (untouched_column ["a"%string] bottomRow 1).
  - reflexivity.
  - reflexivity.
  - unfold GRID_COLS. lia.
  - intros b Hb Hc. vm_compute in Hb.
    repeat (destruct Hb as [<-|Hb]; [try reflexivity; discriminate Hc|]).
    destruct Hb.
Defined.

Lemma selectedBlocks_values (st : GameState) :
  values_ok (grid st) = true ->
  Forall (fun b => 1 <= value b <= MAX_VALUE)
         (selectedBlocks (grid st) (selectedIds st)).
Proof.
  intros Hv. apply Forall_forall. intros b Hb.
  unfold selectedBlocks in Hb. apply filter_In in Hb.
  now apply (proj1 (values_ok_spec _) Hv).
Qed.

(** X21.  A success always scores.  In a reachable state in which the
    selected blocks sum to the target and the target is not 0, the
    check-sum effect returns a state whose score has grown by at least the
    target, hence by at least 1, and by at most
    [4 * MAX_VALUE * (4 * MAX_VALUE) * 5]. *)
Theorem success_scores (r : Rand) (st : GameState) :
  reachable st ->
  sumValues (selectedBlocks (grid st) (selectedIds st)) = target st ->
  target st <> 0 ->
  exists st' r',
    checkSum r st = Some (st', r') /\
    score st < score st' /\
    score st + target st <= score st' /\
    score st' <= score st + 4 * MAX_VALUE * (4 * MAX_VALUE) * 5.
Proof.
  intros Hr Hsum Hne.
  pose proof (reachable_Inv st Hr) as [Hg [Hc [Ht _]]].
  pose proof (reachable_Inv2 st Hr) as [_ [_ [_ Hrange]]].
  destruct (grid_ok_parts _ Hg) as [Hl [_ Hv]].
  destruct (checkSum_success r st Hl Hsum Hne)
    as [cleared [st' [r' [E [_ [_ [Hs _]]]]]]].
  exists st', r'. split; [exact E|]. rewrite Hs.
  pose proof (sumValues_bounds _ (selectedBlocks_values st Hv)) as Hb.
  rewrite Hsum in Hb.
  set (n := Z.of_nat (length (selectedBlocks (grid st) (selectedIds st)))) in *.
  assert (1 <= target st <= 4 * MAX_VALUE) as Hrg.
  { destruct Hrange as [[H0 _]|H]; [contradiction | exact H]. }
  assert (1 <= n).
  { destruct (selectedBlocks (grid st) (selectedIds st)) eqn:Es.
    - change (sumValues []) with 0 in Hsum. lia.
    - subst n. cbn [length]. lia. }
  unfold MAX_VALUE in *.
  assert (target st <= target st * n <= 36 * 36) as Hp by nia.
  assert (target st * n <= target st * n * combo st <= 36 * 36 * 5) as Hq by nia.
  lia.
Qed.

(** Witness of X21: the blocks 2 and 8 against the target 10. *)
Lemma success_scores_witness :
  exists st' r',
    checkSum sampleRand selectedState = Some (st', r') /\
    score selectedState < score st'.
Proof.
  assert (reachable selectedState) as H.
  { exists ((sampleRand, Start classic) :: firstn 2 scoringTrace).
    vm_compute. reflexivity. }
  destruct (success_scores sampleRand selectedState H)
    as [st' [r' [E [Hlt _]]]].
  - vm_compute. reflexivity.
  - discriminate.
  - exists st', r'. split; [exact E | exact Hlt].
Defined.

Lemma run_after (t1 t2 : list (Rand * Event)) (st st1 : GameState) :
  run t1 st = Some st1 -> run (t1 ++ t2) st = run t2 st1.
Proof.
  revert st. induction t1 as [|[r e] rest IH]; intros st E; cbn [run app] in *.
  - apply Some_eq in E. now subst.
  - destruct (transition r e st) as [s|]; [now apply IH | discriminate].
Qed.

Lemma ticks_count_down (rs : list Rand) (st : GameState) :
  running st = true ->
  Z.of_nat (length rs) < timeLeft st ->
  run (map (fun r => (r, Tick)) rs) st =
  Some (mkState (mode st) (grid st) (target st) (selectedIds st) (score st)
                (gameOver st) (timeLeft st - Z.of_nat (length rs))
                (isPaused st) (combo st)).
Proof.
  revert st. induction rs as [|r rs IH]; intros st Hrun Hlt.
  - cbn [map run length Z.of_nat]. rewrite Z.sub_0_r. now destruct st.
  - cbn [map run transition]. rewrite Hrun. unfold tick.
    cbn [length] in Hlt. rewrite Nat2Z.inj_succ in Hlt.
    replace (timeLeft st <=? 1) with false by (symmetry; apply Z.leb_gt; lia).
    cbn [fst]. rewrite IH.
    + fields. do 2 f_equal. cbn [length]. lia.
    + exact Hrun.
    + fields. lia.
Qed.

(** X22.  One period of the timer.  While the game runs in time mode with
    [t] seconds on the timer, [t] consecutive ticks and nothing else make
    one row insertion: the first [t - 1] ticks only count down, and the
    last one leaves the grid and [gameOver] as [addNewRow] makes them from
    the grid of the beginning, the combo at 1, the timer at [TIME_LIMIT],
    and the target, selection, score and mode as they were. *)
Theorem timer_period (rs : list Rand) (r : Rand) (st : GameState) :
  running st = true ->
  Z.of_nat (length rs) + 1 = timeLeft st ->
  exists st',
    run (map (fun x => (x, Tick)) rs ++ [(r, Tick)]) st = Some st' /\
    grid st' = grid (fst (addNewRow r st)) /\
    gameOver st' = gameOver (fst (addNewRow r st)) /\
    combo st' = 1 /\ timeLeft st' = TIME_LIMIT /\
    target st' = target st /\ selectedIds st' = selectedIds st /\
    score st' = score st /\ mode st' = mode st.
Proof.
  intros Hrun Ht.
  rewrite (run_after _ _ st _ (ticks_count_down rs st Hrun ltac:(lia))).
  cbn [run transition]. 
  replace (running (mkState (mode st) (grid st) (target st) (selectedIds st)
                            (score st) (gameOver st)
                            (timeLeft st - Z.of_nat (length rs))
                            (isPaused st) (combo st)))
    with (running st) by reflexivity.
  rewrite Hrun. unfold tick. fields.
  replace (timeLeft st - Z.of_nat (length rs) <=? 1) with true
    by (symmetry; apply Z.leb_le; lia).
  eexists. split; [reflexivity|].
  match goal with
  | |- context [addNewRow r ?s] =>
      destruct (addNewRow_frame r s) as [Hm [Htg [Hsel [Hsc [Htl [_ Hc]]]]]];
      destruct (addNewRow_reads_grid r s st eq_refl eq_refl) as [Hg Ho]
  end.
  rewrite Hg, Ho, Hm, Htg, Hsel, Hsc, Htl, Hc. fields. tauto.
Qed.

(** Witness of X22: seven seconds left in [bustState], seven ticks. *)
Lemma timer_period_witness :
  exists st',
    run (map (fun x => (x, Tick)) (repeat sampleRand 6) ++ [(sampleRand, Tick)])
        bustState = Some st' /\
    timeLeft st' = TIME_LIMIT /\ combo st' = 1.
Proof.
  destruct (timer_period (repeat sampleRand 6) sampleRand bustState)
    as [st' [E [_ [_ [Hc [Ht _]]]]]].
  - reflexivity.
  - reflexivity.
  - exists st'. split; [exact E|]. split; [exact Ht | exact Hc].
Defined.
